(** * TensorBuffers: a shallow embedding of the writer, the streaming reader,
    the [TensorBuffers] facade and the [RemoteFile] transport.

    Sources: [src/src/tensor_buffers_writer.rs], [tensor_buffers_reader.rs],
    [tensor_buffers.rs], [tensor_buffers_file.rs], [tensor.rs], [utils.rs],
    [num_trait.rs].

    Conventions.
    - Rust integers are [Z]; [u32]/[u64] wrap-around is written out with
      [wrap_u32]/[wrap_u64] (the [as u32] casts truncate, [wrapping_mul] wraps).
    - Bytes are [list byte]; a tensor's data is its [bytemuck::cast_slice]
      byte view.
    - The FlatBuffers trailer codec is an external collaborator: it enters the
      model as an [encode] function (the writer's [FlatBufferBuilder] output)
      and a [decode] function ([flatbuffers::root]).
    - Fallible, stateful code runs in a small state/error monad [M]. *)

From Stdlib Require Import ZArith List String Ascii Bool Lia.
From Stdlib Require Import Strings.Byte Numbers.DecimalString.
From Stdlib Require Import Sorting.Sorted.
Import ListNotations.
Open Scope Z_scope.

(* ------------------------------------------------------------------ *)
(** ** Machine integers and bytes *)

Definition wrap_u32 (z : Z) : Z := z mod 2 ^ 32.
Definition wrap_u64 (z : Z) : Z := z mod 2 ^ 64.

Definition Z_of_byte (b : byte) : Z := Z.of_N (Byte.to_N b).

Definition byte_of_Z (z : Z) : byte :=
  match Byte.of_N (Z.to_N (z mod 256)) with
  | Some b => b
  | None => x00
  end.

(** [u32::to_le_bytes] *)
Definition u32_to_le_bytes (n : Z) : list byte :=
  [byte_of_Z n; byte_of_Z (n / 2 ^ 8); byte_of_Z (n / 2 ^ 16); byte_of_Z (n / 2 ^ 24)].

(** [u32::from_le_bytes] on the 4-byte array read by [read_exact]. *)
Definition u32_from_le_bytes (bs : list byte) : Z :=
  match bs with
  | [b0; b1; b2; b3] =>
      Z_of_byte b0 + 2 ^ 8 * Z_of_byte b1 + 2 ^ 16 * Z_of_byte b2
      + 2 ^ 24 * Z_of_byte b3
  | _ => 0
  end.

Definition bytes_eqb (a b : list byte) : bool :=
  if list_eq_dec Byte.byte_eq_dec a b then true else false.

(* ------------------------------------------------------------------ *)
(** ** Constants ([constants.rs] is not part of the sources) *)

(** Modelled from the spec: [MAGIC_BYTES] of [constants.rs], "a fixed 4-byte
    sequence" used as leading and trailing sentinel.  Every result below
    depends only on its length being 4. *)
Definition MAGIC_BYTES : list byte := [x54; x42; x55; x46].

(** Modelled from the spec: [VERSION] of [constants.rs], the free-text
    version string stored in the trailer. *)
Definition VERSION : string := "0.1.0".

(* ------------------------------------------------------------------ *)
(** ** [utils.rs]: [hash_key], FNV-1a 64 over [str]'s [Hash] feed *)

Definition FNV_OFFSET_BASIS : Z := 14695981039346656037.
Definition FNV_PRIME : Z := 1099511628211.

(** [FnvHasher::write]: [hash ^= byte; hash = hash.wrapping_mul(PRIME)]. *)
Definition fnv_write (h : Z) (bs : list byte) : Z :=
  fold_left (fun h b => wrap_u64 (Z.lxor h (Z_of_byte b) * FNV_PRIME)) bs h.

(** [impl Hash for str] feeds the bytes followed by [0xff]
    ([Hasher::write_str]); [finish] returns the state. *)
Definition hash_key (key : string) : Z :=
  fnv_write FNV_OFFSET_BASIS (list_byte_of_string key ++ [xff]).

(* ------------------------------------------------------------------ *)
(** ** [num_trait.rs]: element kinds *)

(** [DataType]; the generated FlatBuffers enum has the same ten constructors
    and [Into] maps each to its namesake, so one type stands for both. *)
Inductive DataType :=
| Int8 | Int16 | Int32 | Int64
| UInt8 | UInt16 | UInt32 | UInt64
| Float32 | Float64.

Definition DataType_eqb (a b : DataType) : bool :=
  match a, b with
  | Int8, Int8 | Int16, Int16 | Int32, Int32 | Int64, Int64
  | UInt8, UInt8 | UInt16, UInt16 | UInt32, UInt32 | UInt64, UInt64
  | Float32, Float32 | Float64, Float64 => true
  | _, _ => false
  end.

(** [size_of::<T>()] for the [T] whose [Num::data_type()] is the kind. *)
Definition size_of (k : DataType) : Z :=
  match k with
  | Int8 | UInt8 => 1
  | Int16 | UInt16 => 2
  | Int32 | UInt32 | Float32 => 4
  | Int64 | UInt64 | Float64 => 8
  end.

(* ------------------------------------------------------------------ *)
(** ** [tensor.rs]: [Tensor] *)

Module Tensor.
(** [Tensor<'a, T>]; [data] is the [cast_slice::<T, u8>] view of the
    elements and [data_type] is [T::data_type()]. *)
Record t := mk {
    id : Z;
    name : string;
    data : list byte;
    data_type : DataType;
    shape : list Z
  }.

(** [Tensor::new]: the id is the fingerprint of the name. *)
Definition new (k : DataType) (name : string) (data : list byte) (shape : list Z) : t :=
    {| id := hash_key name; name := name; data := data; data_type := k; shape := shape |}.
End Tensor.

(* ------------------------------------------------------------------ *)
(** ** The trailer tables (generated FlatBuffers types) *)

Module TensorMetadata.
Record t := mk {
    id : Z;
    name : string;
    data_type : DataType;
    data_offset : Z;                (* u32 *)
    data_size : Z;                  (* u32 *)
    shape : option (list Z)         (* [u32]; optional field *)
  }.
End TensorMetadata.

Module OperationMetadata.
Record t := mk {
    id : Z;
    operation : nat;
    input_operations : option (list Z);
    output : Z
  }.
End OperationMetadata.

Module TensorBuffersMetadata.
Record t := mk {
    version : option string;
    tensors : option (list TensorMetadata.t);
    operations : option (list OperationMetadata.t)
  }.
End TensorBuffersMetadata.

(* ------------------------------------------------------------------ *)
(** ** [tensor_buffers_writer.rs]: [TensorBuffersWriter::write_tensors] *)

(** The calls the writer makes on its sink [W], in order. *)
Inductive SinkOp :=
| WriteAll (bs : list byte)        (* [write_all(..).await?] *)
| Write (bs : list byte)           (* [write(..).await?]; count ignored *)
| Flush.                           (* [flush().await?] *)

(** The loop over [tensor_vec]: push [current_offset as u32], then
    [current_offset += (data_bytes.len() as u32) as u64]. *)
Fixpoint data_offsets (current_offset : Z) (ts : list Tensor.t) : list Z :=
  match ts with
  | [] => []
  | t :: ts' =>
      wrap_u32 current_offset
      :: data_offsets
           (wrap_u64 (current_offset + wrap_u32 (Z.of_nat (List.length (Tensor.data t))))) ts'
  end.

(** [TensorMetadataArgs] built for tensor [t] with its recorded offset. *)
Definition tensor_metadata_of (t : Tensor.t) (data_offset : Z) : TensorMetadata.t :=
  {| TensorMetadata.id := Tensor.id t;
     TensorMetadata.name := Tensor.name t;
     TensorMetadata.data_type := Tensor.data_type t;
     TensorMetadata.data_offset := data_offset;
     TensorMetadata.data_size := wrap_u32 (Z.of_nat (List.length (Tensor.data t)));
     TensorMetadata.shape := Some (map wrap_u32 (Tensor.shape t)) |}.

(** The [TensorBuffersMetadata] root the writer finishes: version, tensors in
    input order ([create_vector] keeps the order), no operations. *)
Definition build_metadata (ts : list Tensor.t) : TensorBuffersMetadata.t :=
  {| TensorBuffersMetadata.version := Some VERSION;
     TensorBuffersMetadata.tensors :=
       Some (map (fun '(t, o) => tensor_metadata_of t o) (combine ts (data_offsets 4 ts)));
     TensorBuffersMetadata.operations := None |}.

Section Writer.
(** [builder.finished_data()] for a root. *)
Variable encode : TensorBuffersMetadata.t -> list byte.

Definition write_tensors (ts : list Tensor.t) : list SinkOp :=
    let flatbuffer_data := encode (build_metadata ts) in
    let metadata_size := wrap_u32 (Z.of_nat (List.length flatbuffer_data)) in
    [WriteAll MAGIC_BYTES]
    ++ map (fun t => WriteAll (Tensor.data t)) ts
    ++ [WriteAll flatbuffer_data;
        Write (u32_to_le_bytes metadata_size);
        Write MAGIC_BYTES;
        Flush].
End Writer.

(** The bytes a sink that accepts every write in full ends up holding. *)
Fixpoint sink_output (ops : list SinkOp) : list byte :=
  match ops with
  | [] => []
  | WriteAll bs :: ops' | Write bs :: ops' => bs ++ sink_output ops'
  | Flush :: ops' => sink_output ops'
  end.

Example hash_key_1 : hash_key "1" = 574148512446984985.
Proof. vm_compute. reflexivity. Qed.

(* ------------------------------------------------------------------ *)
(** ** Errors and the state/error monad *)

(** The [Box<dyn Error>] values the code can return, one per message or
    [io::ErrorKind]. *)
Inductive Error :=
| UnexpectedEof                (* [read_exact] past end of stream *)
| InvalidInput                 (* seek to a negative position, seek overflow *)
| InvalidMagic                 (* "Invalid magic bytes" *)
| BufferInsufficient           (* "Buffer size is insufficient" *)
| MetadataDecode               (* "Failed to read metadata from mmap" *)
| CacheAlreadySet              (* "Failed to set metadata root ..." *)
| NoTensors                    (* "No tensors found" *)
| TensorIdNotFound             (* "Tensor ID not found in metadata" *)
| TypeMismatch                 (* "Tensor data type mismatch ..." *)
| RangeOutOfBounds             (* "Tensor data range ... out of bounds" *)
| SizeNotMultiple              (* "Tensor data size ... is not a multiple ..." *)
| NoShape                      (* "Failed to get tensor shape from metadata" *)
| CastPanic                    (* not returned: [cast_slice] panics *)
| WriteZero.                   (* [ErrorKind::WriteZero] from [write_all] *)

Inductive Result (A : Type) := Ok (a : A) | Err (e : Error).
Arguments Ok {A} a.
Arguments Err {A} e.

Definition M (S A : Type) : Type := S -> Result A * S.

Definition ret {S A} (a : A) : M S A := fun s => (Ok a, s).
Definition fail {S A} (e : Error) : M S A := fun s => (Err e, s).
Definition bind {S A B} (m : M S A) (k : A -> M S B) : M S B :=
  fun s => match m s with
           | (Ok a, s') => k a s'
           | (Err e, s') => (Err e, s')
           end.

Notation "x <- m ;; k" := (bind m (fun x => k))
  (at level 61, m at next level, right associativity).

(* ------------------------------------------------------------------ *)
(** ** A seekable byte source ([tokio::fs::File] semantics) *)

Inductive SeekFrom := Start (n : Z) | End (d : Z) | Current (d : Z).

(** What the source saw: every seek and every read, with its position. *)
Inductive IoEvent := EvSeek (p : SeekFrom) | EvRead (at_pos : Z) (len : nat).

Record Source := mkSource {
  src_bytes : list byte;
  src_pos : Z;
  src_log : list IoEvent
}.

Definition src_len (s : Source) : Z := Z.of_nat (List.length (src_bytes s)).

(** [seek]: a target below 0 is an [InvalidInput] error; past the end is
    allowed. *)
Definition seek (p : SeekFrom) : M Source Z := fun s =>
  let target := match p with
                | Start n => n
                | End d => src_len s + d
                | Current d => src_pos s + d
                end in
  let log' := src_log s ++ [EvSeek p] in
  if target <? 0 then (Err InvalidInput, mkSource (src_bytes s) (src_pos s) log')
  else (Ok target, mkSource (src_bytes s) target log').

(** [read_exact] of a buffer of [n] bytes; [tokio]'s [ReadExact] completes
    an empty buffer at once, without polling the reader. *)
Definition read_exact (n : nat) : M Source (list byte) := fun s =>
  match n with
  | O => (Ok [], s)
  | _ =>
      let p := src_pos s in
      let log' := src_log s ++ [EvRead p n] in
      if p + Z.of_nat n <=? src_len s
      then (Ok (firstn n (skipn (Z.to_nat p) (src_bytes s))),
            mkSource (src_bytes s) (p + Z.of_nat n) log')
      else (Err UnexpectedEof, mkSource (src_bytes s) (Z.max p (src_len s)) log')
  end.

(* ------------------------------------------------------------------ *)
(** ** [tensor_buffers_reader.rs]: [TensorBuffersReader] *)

Definition get_metadata_size : M Source Z :=
  _ <- seek (End (-8)) ;;
  metadata_size_buff <- read_exact 4 ;;
  ret (u32_from_le_bytes metadata_size_buff).

(** [read_metadata(buf)] for a [buf] of length [buf_len]; the result is the
    content written into [buf]. *)
Definition read_metadata (buf_len : nat) : M Source (list byte) :=
  _ <- seek (Start 0) ;;
  magic_buf <- read_exact 4 ;;
  if negb (bytes_eqb magic_buf MAGIC_BYTES) then fail InvalidMagic else
  metadata_size <- get_metadata_size ;;
  if Z.of_nat buf_len <? metadata_size then fail BufferInsufficient else
  _ <- seek (End (- (metadata_size + 8))) ;;
  read_exact buf_len.

Definition read_data_with_metadata (tensor_metadata : TensorMetadata.t) (buf_len : nat)
  : M Source (list byte) :=
  let offset := TensorMetadata.data_offset tensor_metadata in
  let size := TensorMetadata.data_size tensor_metadata in
  _ <- seek (Start offset) ;;
  if Z.of_nat buf_len <? size then fail BufferInsufficient else
  read_exact buf_len.

(* ------------------------------------------------------------------ *)
(** ** FlatBuffers [Vector::lookup_by_key] (binary search over the vector) *)

(** The [while left <= right] loop; [fuel] bounds the iterations, and
    [length + 1] is always enough since [right - left] strictly decreases. *)
Fixpoint lookup_by_key_loop (fuel : nat) (v : list TensorMetadata.t) (key left right : Z)
  : option TensorMetadata.t :=
  match fuel with
  | O => None
  | S fuel' =>
      if left <=? right then
        let mid := (left + right) / 2 in
        match nth_error v (Z.to_nat mid) with
        | None => None
        | Some value =>
            match Z.compare (TensorMetadata.id value) key with
            | Eq => Some value
            | Lt => lookup_by_key_loop fuel' v key (mid + 1) right
            | Gt => if mid =? 0 then None
                    else lookup_by_key_loop fuel' v key left (mid - 1)
            end
        end
      else None
  end.

Definition lookup_by_key (v : list TensorMetadata.t) (key : Z) : option TensorMetadata.t :=
  match v with
  | [] => None
  | _ => lookup_by_key_loop (S (List.length v)) v key 0 (Z.of_nat (List.length v) - 1)
  end.

(* ------------------------------------------------------------------ *)
(** ** [tensor_buffers.rs]: the [TensorBuffers] facade *)

(** The [OnceCell] trailer cache and the reader behind the [Mutex]. *)
Record TensorBuffers := mkTensorBuffers {
  metadata_root : option TensorBuffersMetadata.t;
  reader : Source
}.

(** [TensorBuffers::open] on a source holding [bs]: empty cache, cursor 0. *)
Definition open_bytes (bs : list byte) : TensorBuffers :=
  {| metadata_root := None; reader := mkSource bs 0 [] |}.

(** [self.reader.lock().unwrap().<op>().await] *)
Definition with_reader {A} (m : M Source A) : M TensorBuffers A := fun tb =>
  let (r, s') := m (reader tb) in (r, mkTensorBuffers (metadata_root tb) s').

(** [self.metadata_root.set(..)]: fails if the cell is already set. *)
Definition set_metadata_root (root : TensorBuffersMetadata.t) : M TensorBuffers unit := fun tb =>
  match metadata_root tb with
  | Some _ => (Err CacheAlreadySet, tb)
  | None => (Ok tt, mkTensorBuffers (Some root) (reader tb))
  end.

(** [align_of::<T>()] for the [T] whose [Num::data_type()] is the kind; on
    the 64-bit targets it equals [size_of]. *)
Definition align_of (k : DataType) : Z := size_of k.

(** Whether [cast_slice::<u8, T>] panics on the bytes of a fresh
    [Box<[u8]>] ([bytes.to_vec().into_boxed_slice()]).  [try_cast_slice]
    first refuses a pointer not aligned for [T] when [align_of::<T>() > 1],
    then a length that is not a multiple of [size_of::<T>()].  An empty box
    holds the dangling pointer [1] (aligned for [u8] and [i8] only); a
    non-empty one comes from the system allocator, whose blocks are at least
    8-aligned on the 64-bit targets, so it is aligned for every kind. *)
Definition cast_slice_panics (k : DataType) (bytes : list byte) : bool :=
  match bytes with
  | [] => 1 <? align_of k
  | _ :: _ => false
  end
  || negb (Z.of_nat (List.length bytes) mod size_of k =? 0).

(** [Tensor::new_with_metadata_and_data] for element kind [k]; the cast
    comes before the shape lookup. *)
Definition new_with_metadata_and_data (k : DataType) (metadata : TensorMetadata.t)
  (bytes : list byte) : Result Tensor.t :=
  if cast_slice_panics k bytes then Err CastPanic else
  match TensorMetadata.shape metadata with
  | None => Err NoShape
  | Some shape =>
      Ok {| Tensor.id := TensorMetadata.id metadata;
            Tensor.name := TensorMetadata.name metadata;
            Tensor.data := bytes;
            Tensor.data_type := k;
            Tensor.shape := shape |}
  end.

Definition lift {S A} (r : Result A) : M S A := fun s => (r, s).

Section Facade.
(** [flatbuffers::root::<TensorBuffersMetadata>] *)
Variable decode : list byte -> option TensorBuffersMetadata.t.

Definition get_metadata_root : M TensorBuffers TensorBuffersMetadata.t := fun tb =>
    match metadata_root tb with
    | Some root => (Ok root, tb)
    | None =>
        (metadata_size <- with_reader get_metadata_size ;;
         (* [BytesMut::with_capacity(metadata_size)]: capacity [metadata_size],
            length 0; [&mut buf] derefs to the empty slice *)
         let buf_len := 0%nat in
         buf <- with_reader (read_metadata buf_len) ;;
         match decode buf with
         | None => fail MetadataDecode
         | Some root => _ <- set_metadata_root root ;; ret root
         end) tb
    end.

Definition get_tensor_metadata (tensor_id : Z) : M TensorBuffers TensorMetadata.t :=
    metadata_root <- get_metadata_root ;;
    match TensorBuffersMetadata.tensors metadata_root with
    | None => fail NoTensors
    | Some tensors =>
        match lookup_by_key tensors tensor_id with
        | None => fail TensorIdNotFound
        | Some result => ret result
        end
    end.

(** [get_tensor_data_by_id::<T>] with [T::data_type() = k]. *)
Definition get_tensor_data_by_id (k : DataType) (tensor_id : Z) : M TensorBuffers Tensor.t :=
    tensor_metadata <- get_tensor_metadata tensor_id ;;
    let data_type := TensorMetadata.data_type tensor_metadata in
    if negb (DataType_eqb data_type k) then fail TypeMismatch else
    let offset := TensorMetadata.data_offset tensor_metadata in
    let size := TensorMetadata.data_size tensor_metadata in
    (* [offset.checked_add(size)] on a 64-bit [usize] *)
    if 2 ^ 64 <=? offset + size then fail RangeOutOfBounds else
    (* [BytesMut::new()] then [buf.resize(size, 0)] *)
    buf <- with_reader (read_data_with_metadata tensor_metadata (Z.to_nat size)) ;;
    if negb (size mod size_of k =? 0) then fail SizeNotMultiple else
    lift (new_with_metadata_and_data k tensor_metadata buf).

Definition get_tensor_data_by_name (k : DataType) (tensor_name : string)
    : M TensorBuffers Tensor.t :=
    let tensor_id := hash_key tensor_name in
    get_tensor_data_by_id k tensor_id.
End Facade.

(* ------------------------------------------------------------------ *)
(** ** [tensor_buffers_file.rs]: [RemoteFile] *)

(** [ReadState]; [Fetch] holds the pending [fetch_range(url, offset, size)]
    future, identified by its arguments.  [FetchSpent] is [ReadState::Fetch]
    still holding that future after it completed with an error (the [?] in
    [poll_read] returns before the state is reset); polling it again panics
    ("[async fn] resumed after completion"). *)
Inductive ReadState := Idle | Fetch (fetch_offset fetch_size : Z)
                     | FetchSpent (fetch_offset fetch_size : Z).

Record RemoteFile := mkRemoteFile {
  url : string;
  offset : Z;           (* u64 *)
  file_size : Z;        (* u64 *)
  state : ReadState
}.

(** The HTTP request [fetch_range] sends: a GET of [url] with a [Range]
    header. *)
Record Request := mkRequest { req_url : string; req_range : string }.

Definition string_of_u64 (n : Z) : string :=
  NilZero.string_of_uint (N.to_uint (Z.to_N n)).

(** [format!("bytes={}-{}", offset, offset + size - 1)] *)
Definition range_header (off size : Z) : string :=
  "bytes=" ++ string_of_u64 off ++ "-" ++ string_of_u64 (wrap_u64 (off + size - 1)).

Definition fetch_range (u : string) (off size : Z) : Request :=
  mkRequest u (range_header off size).

(** [ReadBuf]: its capacity and the bytes filled so far. *)
Record ReadBuf := mkReadBuf { capacity : nat; filled : list byte }.

Definition remaining (b : ReadBuf) : Z :=
  Z.of_nat (capacity b) - Z.of_nat (List.length (filled b)).

(** Outcome of one [poll_read] call; [Panic] is the [put_slice] assertion or
    the poll of a completed future. *)
Inductive PollRead := Ready (r : Result unit) | Pending | Panic.

(** What polling the in-flight fetch future yields at this call: not ready,
    or completed with the body bytes or an error. *)
Inductive FetchPoll := NotReady | Done (r : Result (list byte)).

(** One iteration of the [loop] in the [Fetch] arm, for the future of
    [fetch_range(url, fo, fs)]. *)
Definition poll_fetch (rf : RemoteFile) (fo fs : Z) (buf : ReadBuf) (net : FetchPoll)
  : PollRead * RemoteFile * ReadBuf :=
  match net with
  | NotReady => (Pending, rf, buf)
  | Done (Err e) =>                                 (* [?]: the spent future stays *)
      (Ready (Err e), mkRemoteFile (url rf) (offset rf) (file_size rf) (FetchSpent fo fs), buf)
  | Done (Ok bytes) =>
      if remaining buf <? Z.of_nat (List.length bytes) then (Panic, rf, buf)
      else (Ready (Ok tt),
            mkRemoteFile (url rf) (wrap_u64 (offset rf + Z.of_nat (List.length bytes)))
                         (file_size rf) Idle,
            mkReadBuf (capacity buf) (filled buf ++ bytes))
  end.

(** [<RemoteFile as AsyncRead>::poll_read]; [net] is what the fetch future
    yields when polled, the list holds the requests issued by this call.
    [u64] subtraction wraps (release profile). *)
Definition poll_read (rf : RemoteFile) (buf : ReadBuf) (net : FetchPoll)
  : PollRead * RemoteFile * ReadBuf * list Request :=
  match state rf with
  | Idle =>
      let size := Z.min (wrap_u64 (file_size rf - offset rf)) (Z.of_nat (capacity buf)) in
      if size =? 0 then (Ready (Ok tt), rf, buf, [])
      else
        let req := fetch_range (url rf) (offset rf) size in
        let rf1 := mkRemoteFile (url rf) (offset rf) (file_size rf)
                                (Fetch (offset rf) size) in
        let '(p, rf2, buf2) := poll_fetch rf1 (offset rf) size buf net in
        (p, rf2, buf2, [req])
  | Fetch fo fs =>
      let '(p, rf2, buf2) := poll_fetch rf fo fs buf net in (p, rf2, buf2, [])
  | FetchSpent _ _ => (Panic, rf, buf, [])
  end.

(** [u64::checked_add_signed] *)
Definition checked_add_signed (base d : Z) : option Z :=
  let r := base + d in
  if (0 <=? r) && (r <? 2 ^ 64) then Some r else None.

(** [<RemoteFile as AsyncSeek>::start_seek]; issues no request. *)
Definition start_seek (rf : RemoteFile) (position : SeekFrom)
  : Result unit * RemoteFile * list Request :=
  let set o := mkRemoteFile (url rf) o (file_size rf) (state rf) in
  match position with
  | Start pos => (Ok tt, set pos, [])
  | End pos =>
      match checked_add_signed (file_size rf) pos with
      | Some o => (Ok tt, set o, [])
      | None => (Err InvalidInput, rf, [])
      end
  | Current pos =>
      match checked_add_signed (offset rf) pos with
      | Some o => (Ok tt, set o, [])
      | None => (Err InvalidInput, rf, [])
      end
  end.

(* ------------------------------------------------------------------ *)
(** ** Concrete inputs *)

(** A stand-in for the FlatBuffers encoder: any trailer of 1 to 2^32 - 1
    bytes exercises the same paths of the reader. *)
Definition small_encode (_ : TensorBuffersMetadata.t) : list byte := [x01; x02; x03].

(** The little-endian bytes of the [f32] values 1.0, 2.0, 3.0. *)
Definition f32_1_2_3 : list byte :=
  [x00; x00; x80; x3f; x00; x00; x00; x40; x00; x00; x40; x40].

(** Three [f32] tensors named "1", "2", "3", as in the crate's tests. *)
Definition three_tensors : list Tensor.t :=
  [Tensor.new Float32 "1" f32_1_2_3 [3];
   Tensor.new Float32 "2" f32_1_2_3 [3];
   Tensor.new Float32 "3" f32_1_2_3 [3]].

Definition written_file (encode : TensorBuffersMetadata.t -> list byte) (ts : list Tensor.t)
  : list byte :=
  sink_output (write_tensors encode ts).

(* ------------------------------------------------------------------ *)
(** ** FlatBuffers [Vector::lookup_by_key] over any keyed table *)

(** The loop of [lookup_by_key] above for a table whose key field is
    [key_of]; the operations table is searched with it.
    [lookup_by_key] is [lookup_by_key_by TensorMetadata.id]. *)
Fixpoint lookup_by_key_by_loop {A} (key_of : A -> Z) (fuel : nat) (v : list A)
  (key left right : Z) : option A :=
  match fuel with
  | O => None
  | S fuel' =>
      if left <=? right then
        let mid := (left + right) / 2 in
        match nth_error v (Z.to_nat mid) with
        | None => None
        | Some value =>
            match Z.compare (key_of value) key with
            | Eq => Some value
            | Lt => lookup_by_key_by_loop key_of fuel' v key (mid + 1) right
            | Gt => if mid =? 0 then None
                    else lookup_by_key_by_loop key_of fuel' v key left (mid - 1)
            end
        end
      else None
  end.

Definition lookup_by_key_by {A} (key_of : A -> Z) (v : list A) (key : Z) : option A :=
  match v with
  | [] => None
  | _ => lookup_by_key_by_loop key_of (S (List.length v)) v key 0
           (Z.of_nat (List.length v) - 1)
  end.

(* ------------------------------------------------------------------ *)
(** ** [tensor_operation.rs]: [TensorOperation] *)

Module TensorOperation.
(** [TensorOperation]; [operation] is the generated [Operation] enum, by
    its discriminant as in [OperationMetadata]. *)
Record t := mk {
    id : Z;
    operation : nat;
    input_operations : list Z;
    output : Z
  }.

Definition new (id : Z) (operation : nat) (input_operations : list Z) (output : Z) : t :=
  {| id := id; operation := operation; input_operations := input_operations;
     output := output |}.

(** [TensorOperation::with_metadata]: an absent input list becomes empty. *)
Definition with_metadata (metadata : OperationMetadata.t) : t :=
  let input_operations := match OperationMetadata.input_operations metadata with
                          | Some inputs => inputs
                          | None => []
                          end in
  new (OperationMetadata.id metadata) (OperationMetadata.operation metadata)
      input_operations (OperationMetadata.output metadata).

(** [TensorOperation::build_table]: the [OperationMetadataArgs] it creates. *)
Definition build_table (tensor_operation : t) : OperationMetadata.t :=
  {| OperationMetadata.id := id tensor_operation;
     OperationMetadata.operation := operation tensor_operation;
     OperationMetadata.input_operations := Some (input_operations tensor_operation);
     OperationMetadata.output := output tensor_operation |}.
End TensorOperation.

(** [Tensor::build_table] (tensor.rs): the [TensorMetadataArgs] for [tensor]
    recorded at [data_offset as u32]. *)
Definition tensor_build_table (tensor : Tensor.t) (data_offset : Z) : TensorMetadata.t :=
  tensor_metadata_of tensor (wrap_u32 data_offset).

(** [TensorBuffers::build_table] (tensor_buffers.rs): version, tensors and
    operations tables, all present. *)
Definition tensor_buffers_build_table (tensor_metadata_offsets : list TensorMetadata.t)
  (tensor_operation_offsets : list OperationMetadata.t) : TensorBuffersMetadata.t :=
  {| TensorBuffersMetadata.version := Some VERSION;
     TensorBuffersMetadata.tensors := Some tensor_metadata_offsets;
     TensorBuffersMetadata.operations := Some tensor_operation_offsets |}.

(** The two errors of [get_tensor_operation_by_id] of its own, besides those
    of [get_metadata_root]. *)
Inductive OperationLookupError :=
| RootError (e : Error)        (* from [get_metadata_root] *)
| NoOperations                 (* "No operations found" *)
| OperationIdNotFound.         (* "Operation ID not found in metadata" *)

(** [TensorBuffers::get_tensor_operation_by_id]. *)
Definition get_tensor_operation_by_id (decode : list byte -> option TensorBuffersMetadata.t)
  (operation_id : Z) (tb : TensorBuffers)
  : (TensorOperation.t + OperationLookupError) * TensorBuffers :=
  match get_metadata_root decode tb with
  | (Err e, tb1) => (inr (RootError e), tb1)
  | (Ok metadata_root, tb1) =>
      match TensorBuffersMetadata.operations metadata_root with
      | None => (inr NoOperations, tb1)
      | Some operations =>
          match lookup_by_key_by OperationMetadata.id operations operation_id with
          | None => (inr OperationIdNotFound, tb1)
          | Some result => (inl (TensorOperation.with_metadata result), tb1)
          end
      end
  end.

(* ------------------------------------------------------------------ *)
(** ** [tensor_buffers_file.rs]: opening files *)

(** The [std::io::Error]s of the opening code. *)
Inductive IoError :=
| RequestFailed                (* Other, "Failed to send request: .." *)
| InvalidContentLength         (* InvalidData, "Invalid content length" *)
| FileSizeUnavailable          (* Other, "Failed to get file size" *)
| UnsupportedScheme            (* InvalidInput, "Unsupported URI scheme" *)
| OsError (code : Z).          (* from [tokio::fs::File::open] *)

Inductive IoResult (A : Type) := IoOk (a : A) | IoErr (e : IoError).
Arguments IoOk {A} a.
Arguments IoErr {A} e.

(** What the HEAD request yields once sent: whether the status is a success
    and the raw [Content-Length] header value, if any. *)
Record HeadResponse := mkHeadResponse {
  status_success : bool;
  content_length : option string
}.

(** [HeaderValue::to_str]: only visible ASCII (and tab) is accepted. *)
Definition is_visible_ascii (c : ascii) : bool :=
  let n := nat_of_ascii c in
  Nat.eqb n 9 || (Nat.leb 32 n && Nat.ltb n 127).

Definition header_to_str (v : string) : option string :=
  if forallb is_visible_ascii (list_ascii_of_string v) then Some v else None.

Definition digit_value (c : ascii) : option Z :=
  let n := Z.of_nat (nat_of_ascii c) in
  if (48 <=? n) && (n <=? 57) then Some (n - 48) else None.

(** The digit loop of [u64::from_str]: [checked_mul(10)] then
    [checked_add(digit)]. *)
Fixpoint parse_u64_digits (result : Z) (digits : string) : option Z :=
  match digits with
  | EmptyString => Some result
  | String c rest =>
      match digit_value c with
      | None => None
      | Some d =>
          let mul := result * 10 in
          if 2 ^ 64 <=? mul then None
          else if 2 ^ 64 <=? mul + d then None
          else parse_u64_digits (mul + d) rest
      end
  end.

(** [str::parse::<u64>]: empty is an error, a lone sign is an error, one
    leading [+] is skipped. *)
Definition parse_u64 (src : string) : option Z :=
  match src with
  | EmptyString => None
  | String c rest =>
      let is_sign := Ascii.eqb c "+"%char || Ascii.eqb c "-"%char in
      match rest with
      | EmptyString => if is_sign then None else parse_u64_digits 0 src
      | _ => if Ascii.eqb c "+"%char then parse_u64_digits 0 rest
             else parse_u64_digits 0 src
      end
  end.

(** [RemoteFile::fetch_file_size]; [None] is a request that could not be
    sent. *)
Definition fetch_file_size (response : option HeadResponse) : IoResult Z :=
  match response with
  | None => IoErr RequestFailed
  | Some response =>
      if status_success response then
        match content_length response with
        | Some content_length =>
            match header_to_str content_length with
            | Some size =>
                match parse_u64 size with
                | Some parsed_size => IoOk parsed_size
                | None => IoErr InvalidContentLength
                end
            | None => IoErr FileSizeUnavailable
            end
        | None => IoErr FileSizeUnavailable
        end
      else IoErr FileSizeUnavailable
  end.

(** [RemoteFile::open], given the reply to its HEAD request. *)
Definition RemoteFile_open (url : string) (response : option HeadResponse)
  : IoResult RemoteFile :=
  match fetch_file_size response with
  | IoOk file_size => IoOk (mkRemoteFile url 0 file_size Idle)
  | IoErr e => IoErr e
  end.

(** [TensorBuffersFile]: a local file (a byte source) or a [RemoteFile]. *)
Inductive TensorBuffersFile := Local (file : Source) | Remote (remote : RemoteFile).

(** [TensorBuffersFile::open]; [file_open] is [tokio::fs::File::open] and
    [head] the reply to the HEAD request for a URL. *)
Definition TensorBuffersFile_open (file_open : string -> IoResult Source)
  (head : string -> option HeadResponse) (url : string) : IoResult TensorBuffersFile :=
  if String.prefix "file://" url then
    let path := substring 7 (String.length url - 7) url in
    match file_open path with
    | IoOk f => IoOk (Local f)
    | IoErr e => IoErr e
    end
  else if String.prefix "https://" url then
    match RemoteFile_open url (head url) with
    | IoOk r => IoOk (Remote r)
    | IoErr e => IoErr e
    end
  else IoErr UnsupportedScheme.

(** A sink whose [write] accepts at most [chunk] bytes per call: the bytes
    it ends up holding and the outcome of the calls.  [write_all] loops
    until everything is taken, and fails with [WriteZero] when a [write] of
    a non-empty buffer returns [Ok(0)]; the [?] after it then ends
    [write_tensors]. *)
Fixpoint sink_output_chunked (chunk : nat) (ops : list SinkOp) : list byte * Result unit :=
  match ops with
  | [] => ([], Ok tt)
  | WriteAll bs :: ops' =>
      match bs, chunk with
      | _ :: _, O => ([], Err WriteZero)
      | _, _ => let '(out, r) := sink_output_chunked chunk ops' in (bs ++ out, r)
      end
  | Write bs :: ops' =>
      let '(out, r) := sink_output_chunked chunk ops' in (firstn chunk bs ++ out, r)
  | Flush :: ops' => sink_output_chunked chunk ops'
  end.

(** A [Content-Length] value written in decimal: the digit characters and
    the number they denote. *)
Definition digit_char (d : Z) : ascii := ascii_of_nat (48 + Z.to_nat d).

Fixpoint string_of_digits (ds : list Z) : string :=
  match ds with
  | [] => EmptyString
  | d :: ds' => String (digit_char d) (string_of_digits ds')
  end.

Definition digits_value (ds : list Z) : Z := fold_left (fun a d => a * 10 + d) ds 0.

(** What one [poll_read] call preserves: URL, file size and capacity; the
    filled bytes only grow and stay within the capacity; a panic, with the
    buffer untouched, only on a body longer than the room left or on a
    spent future; an error leaves the spent future in the state. *)
Definition poll_frame (rf rf' : RemoteFile) (buf buf' : ReadBuf) (net : FetchPoll) (p : PollRead)
  : Prop :=
  url rf' = url rf /\ file_size rf' = file_size rf /\ capacity buf' = capacity buf
  /\ (exists ext, filled buf' = filled buf ++ ext)
  /\ (List.length (filled buf) <= capacity buf -> List.length (filled buf') <= capacity buf')%nat
  /\ (p = Panic -> buf' = buf
                 /\ ((exists bytes, net = Done (Ok bytes)
                                   /\ remaining buf < Z.of_nat (List.length bytes))
                     \/ exists fo fs, state rf = FetchSpent fo fs))
  /\ (forall e, p = Ready (Err e) -> exists fo fs, state rf' = FetchSpent fo fs).

(* ================================================================== *)
(** * Properties *)

(** ** Little-endian helpers *)

Lemma Z_of_byte_of_Z (z : Z) : Z_of_byte (byte_of_Z z) = z mod 256.
Proof.
  unfold Z_of_byte, byte_of_Z.
  destruct (Byte.of_N (Z.to_N (z mod 256))) as [b|] eqn:E.
  - apply Byte.to_of_N in E. rewrite E. rewrite Z2N.id; [reflexivity|].
    apply Z.mod_pos_bound; lia.
  - apply Byte.of_N_None_iff in E.
    pose proof (Z.mod_pos_bound z 256 ltac:(lia)). lia.
Qed.

Lemma u32_from_to_le_bytes (n : Z) :
  0 <= n < 2 ^ 32 -> u32_from_le_bytes (u32_to_le_bytes n) = n.
Proof.
  intros Hn. unfold u32_from_le_bytes, u32_to_le_bytes.
  rewrite !Z_of_byte_of_Z.
  assert (E16 : n / 2 ^ 16 = (n / 2 ^ 8) / 2 ^ 8)
    by (rewrite Z.div_div by lia; reflexivity).
  assert (E24 : n / 2 ^ 24 = ((n / 2 ^ 8) / 2 ^ 8) / 2 ^ 8)
    by (rewrite !Z.div_div by lia; reflexivity).
  rewrite E16, E24.
  set (q1 := n / 2 ^ 8). set (q2 := q1 / 2 ^ 8). set (q3 := q2 / 2 ^ 8).
  pose proof (Z.div_mod n (2 ^ 8) ltac:(lia)) as D1.
  pose proof (Z.div_mod q1 (2 ^ 8) ltac:(lia)) as D2.
  pose proof (Z.div_mod q2 (2 ^ 8) ltac:(lia)) as D3.
  assert (Hq3 : 0 <= q3 < 256).
  { unfold q3, q2, q1. rewrite !Z.div_div by lia.
    split; [apply Z.div_pos; lia | apply Z.div_lt_upper_bound; lia]. }
  rewrite (Z.mod_small q3 256 Hq3).
  change (2 ^ 8) with 256 in *. lia.
Qed.

Lemma length_u32_to_le_bytes (n : Z) : List.length (u32_to_le_bytes n) = 4%nat.
Proof. reflexivity. Qed.

(** ** Monad and source helpers *)

Lemma bind_ok {S A B} (m : M S A) (k : A -> M S B) s a s' :
  m s = (Ok a, s') -> bind m k s = k a s'.
Proof. intros H. unfold bind. rewrite H. reflexivity. Qed.

Lemma bind_err {S A B} (m : M S A) (k : A -> M S B) s e s' :
  m s = (Err e, s') -> bind m k s = (Err e, s').
Proof. intros H. unfold bind. rewrite H. reflexivity. Qed.

Lemma seek_ok (p : SeekFrom) (bs : list byte) pos log target :
  target = match p with
           | Start n => n
           | End d => Z.of_nat (List.length bs) + d
           | Current d => pos + d
           end ->
  0 <= target ->
  seek p (mkSource bs pos log) = (Ok target, mkSource bs target (log ++ [EvSeek p])).
Proof.
  intros -> H. unfold seek, src_len; simpl.
  destruct p; simpl in *; destruct (_ <? 0) eqn:E; try reflexivity; lia.
Qed.

Lemma seek_neg (p : SeekFrom) (bs : list byte) pos log :
  match p with
  | Start n => n
  | End d => Z.of_nat (List.length bs) + d
  | Current d => pos + d
  end < 0 ->
  seek p (mkSource bs pos log) = (Err InvalidInput, mkSource bs pos (log ++ [EvSeek p])).
Proof.
  intros H. unfold seek, src_len; simpl.
  destruct p; simpl in *; destruct (_ <? 0) eqn:E; try reflexivity; lia.
Qed.

Lemma read_exact_zero (s : Source) : read_exact 0 s = (Ok [], s).
Proof. reflexivity. Qed.

Lemma read_exact_ok (n : nat) (bs : list byte) pos log :
  (0 < n)%nat -> 0 <= pos -> pos + Z.of_nat n <= Z.of_nat (List.length bs) ->
  read_exact n (mkSource bs pos log)
  = (Ok (firstn n (skipn (Z.to_nat pos) bs)),
     mkSource bs (pos + Z.of_nat n) (log ++ [EvRead pos n])).
Proof.
  intros Hn H0 H. destruct n as [|n']; [lia |].
  unfold read_exact, src_len; cbn [src_pos src_log src_bytes].
  rewrite (proj2 (Z.leb_le _ _)) by lia. reflexivity.
Qed.

Lemma read_exact_eof (n : nat) (bs : list byte) pos log :
  (0 < n)%nat -> Z.of_nat (List.length bs) < pos + Z.of_nat n ->
  read_exact n (mkSource bs pos log)
  = (Err UnexpectedEof,
     mkSource bs (Z.max pos (Z.of_nat (List.length bs))) (log ++ [EvRead pos n])).
Proof.
  intros Hn H. destruct n as [|n']; [lia |].
  unfold read_exact, src_len; cbn [src_pos src_log src_bytes].
  rewrite (proj2 (Z.leb_gt _ _)) by lia. reflexivity.
Qed.

Lemma skipn_length_app {A} (pre r : list A) : skipn (List.length pre) (pre ++ r) = r.
Proof. induction pre; simpl; auto. Qed.

Lemma firstn_length_app {A} (l r : list A) : firstn (List.length l) (l ++ r) = l.
Proof. induction l; simpl; f_equal; auto. Qed.

Lemma u32_from_le_bytes_nonneg (bs : list byte) : 0 <= u32_from_le_bytes bs.
Proof.
  unfold u32_from_le_bytes.
  destruct bs as [|? [|? [|? [|? [|]]]]]; try lia; unfold Z_of_byte; lia.
Qed.

(** ** Trailer discovery on a byte source ending in [le ++ tail] *)

Lemma get_metadata_size_layout (pre le tail : list byte) pos log :
  List.length le = 4%nat -> List.length tail = 4%nat ->
  get_metadata_size (mkSource (pre ++ le ++ tail) pos log)
  = (Ok (u32_from_le_bytes le),
     mkSource (pre ++ le ++ tail) (Z.of_nat (List.length pre) + 4)
              (log ++ [EvSeek (End (-8))] ++ [EvRead (Z.of_nat (List.length pre)) 4])).
Proof.
  intros Hle Ht. unfold get_metadata_size.
  assert (HL : Z.of_nat (List.length (pre ++ le ++ tail))
               = Z.of_nat (List.length pre) + 8)
    by (rewrite !length_app, Hle, Ht; lia).
  erewrite bind_ok; [| apply seek_ok; [reflexivity | lia]].
  erewrite bind_ok.
  2:{ replace (Z.of_nat (List.length (pre ++ le ++ tail)) + -8)
        with (Z.of_nat (List.length pre)) by lia.
      apply read_exact_ok; lia. }
  rewrite Nat2Z.id, skipn_length_app.
  replace (firstn 4 (le ++ tail)) with le by (rewrite <- Hle; symmetry; apply firstn_length_app).
  unfold ret. rewrite <- (app_assoc log). reflexivity.
Qed.

(** [read_metadata] on a source ending in [le ++ tail]: each outcome. *)
Lemma read_metadata_layout (pre le tail : list byte) pos log (buf_len : nat) :
  List.length le = 4%nat -> List.length tail = 4%nat ->
  let bs := pre ++ le ++ tail in
  let L := Z.of_nat (List.length bs) in
  let ms := u32_from_le_bytes le in
  fst (read_metadata buf_len (mkSource bs pos log))
  = if negb (bytes_eqb (firstn 4 bs) MAGIC_BYTES) then Err InvalidMagic
    else if Z.of_nat buf_len <? ms then Err BufferInsufficient
    else if L - (ms + 8) <? 0 then Err InvalidInput
    else if L - (ms + 8) + Z.of_nat buf_len <=? L
         then Ok (firstn buf_len (skipn (Z.to_nat (L - (ms + 8))) bs))
         else Err UnexpectedEof.
Proof.
  intros Hle Ht bs L ms.
  assert (HL : L = Z.of_nat (List.length pre) + 8)
    by (unfold L, bs; rewrite !length_app, Hle, Ht; lia).
  unfold read_metadata.
  erewrite bind_ok; [| apply seek_ok; [reflexivity | lia]].
  erewrite bind_ok; [| apply read_exact_ok; fold L; lia].
  simpl (skipn _ _).
  destruct (negb (bytes_eqb (firstn 4 bs) MAGIC_BYTES)); [reflexivity |].
  erewrite bind_ok; [| apply get_metadata_size_layout; assumption].
  fold bs ms.
  destruct (Z.of_nat buf_len <? ms) eqn:Hb; [reflexivity |].
  destruct (L - (ms + 8) <? 0) eqn:Hn.
  - rewrite bind_err with (e := InvalidInput)
      (s' := mkSource bs (Z.of_nat (List.length pre) + 4)
               ((((log ++ [EvSeek (Start 0)]) ++ [EvRead 0 4])
                 ++ [EvSeek (End (-8))] ++ [EvRead (Z.of_nat (List.length pre)) 4])
                ++ [EvSeek (End (- (ms + 8)))])); [reflexivity |].
    apply seek_neg. fold L. lia.
  - erewrite bind_ok; [| apply seek_ok; [reflexivity | fold L; lia]].
    fold L.
    destruct (L - (ms + 8) + Z.of_nat buf_len <=? L) eqn:Hr.
    + destruct buf_len as [|b']; [reflexivity |].
      apply Z.ltb_ge in Hn. apply Z.leb_le in Hr.
      rewrite read_exact_ok; [reflexivity | lia | lia | fold L; lia].
    + apply Z.leb_gt in Hr. pose proof (u32_from_le_bytes_nonneg le). fold ms in H.
      rewrite read_exact_eof; [reflexivity | lia | fold L; lia].
Qed.

(** ** The writer's output *)

Lemma sink_output_app (a b : list SinkOp) :
  sink_output (a ++ b) = sink_output a ++ sink_output b.
Proof.
  induction a as [|[bs|bs|] a IH]; simpl; try rewrite IH; try rewrite app_assoc; reflexivity.
Qed.

Lemma sink_output_data (ts : list Tensor.t) :
  sink_output (map (fun t => WriteAll (Tensor.data t)) ts) = List.concat (map Tensor.data ts).
Proof. induction ts as [|t ts IH]; simpl; [reflexivity | rewrite IH; reflexivity]. Qed.

(** [magic | tensor data | trailer | metadata size | magic] *)
Lemma written_file_layout encode (ts : list Tensor.t) :
  written_file encode ts
  = (MAGIC_BYTES ++ List.concat (map Tensor.data ts) ++ encode (build_metadata ts))
    ++ u32_to_le_bytes (wrap_u32 (Z.of_nat (List.length (encode (build_metadata ts)))))
    ++ MAGIC_BYTES.
Proof.
  unfold written_file, write_tensors.
  rewrite !sink_output_app, sink_output_data. simpl.
  rewrite <- !app_assoc. reflexivity.
Qed.

Lemma bytes_eqb_refl (a : list byte) : bytes_eqb a a = true.
Proof. unfold bytes_eqb. destruct (list_eq_dec _ a a); congruence. Qed.

Lemma bytes_eqb_true (a b : list byte) : bytes_eqb a b = true -> a = b.
Proof. unfold bytes_eqb. destruct (list_eq_dec _ a b); congruence. Qed.

Lemma firstn_4_magic (r r' : list byte) : firstn 4 ((MAGIC_BYTES ++ r) ++ r') = MAGIC_BYTES.
Proof. reflexivity. Qed.

(** ** The facade on a written file *)

Lemma with_reader_err {A B} (m : M Source A) (k : A -> M TensorBuffers B) tb e :
  fst (m (reader tb)) = Err e ->
  bind (with_reader m) k tb
  = (Err e, mkTensorBuffers (metadata_root tb) (snd (m (reader tb)))).
Proof.
  intros H. unfold bind, with_reader. destruct (m (reader tb)) as [r s']. simpl in *.
  subst r. reflexivity.
Qed.

Lemma with_reader_ok {A B} (m : M Source A) (k : A -> M TensorBuffers B) tb a :
  fst (m (reader tb)) = Ok a ->
  bind (with_reader m) k tb
  = k a (mkTensorBuffers (metadata_root tb) (snd (m (reader tb)))).
Proof.
  intros H. unfold bind, with_reader. destruct (m (reader tb)) as [r s']. simpl in *.
  subst r. reflexivity.
Qed.

(** [get_metadata_root] on a freshly opened written file: the zero-length
    [BytesMut::with_capacity] buffer is rejected by [read_metadata]. *)
Lemma get_metadata_root_written decode encode (ts : list Tensor.t) :
  (0 < Z.of_nat (List.length (encode (build_metadata ts))) < 2 ^ 32) ->
  fst (get_metadata_root decode (open_bytes (written_file encode ts))) = Err BufferInsufficient
  /\ metadata_root (snd (get_metadata_root decode (open_bytes (written_file encode ts)))) = None.
Proof.
  intros Hfb.
  set (fb := encode (build_metadata ts)) in *.
  set (ms := wrap_u32 (Z.of_nat (List.length fb))).
  assert (Hms : u32_from_le_bytes (u32_to_le_bytes ms) = Z.of_nat (List.length fb)).
  { unfold ms, wrap_u32. rewrite Z.mod_small by lia.
    apply u32_from_to_le_bytes. lia. }
  unfold open_bytes. rewrite written_file_layout. fold fb ms.
  unfold get_metadata_root. cbn [metadata_root].
  rewrite (with_reader_ok _ _ _ (Z.of_nat (List.length fb))).
  2:{ cbn [reader]. rewrite get_metadata_size_layout by reflexivity.
      cbn [fst]. now rewrite Hms. }
  rewrite (with_reader_err _ _ _ BufferInsufficient).
  { split; reflexivity. }
  cbn [reader]. rewrite get_metadata_size_layout by reflexivity. cbn [snd].
  rewrite read_metadata_layout by reflexivity.
  rewrite firstn_4_magic, bytes_eqb_refl. simpl negb. cbv iota.
  rewrite Hms.
  rewrite (proj2 (Z.ltb_lt _ _)) by lia. reflexivity.
Qed.

Lemma get_tensor_data_by_id_written decode encode (ts : list Tensor.t) k tensor_id :
  (0 < Z.of_nat (List.length (encode (build_metadata ts))) < 2 ^ 32) ->
  fst (get_tensor_data_by_id decode k tensor_id (open_bytes (written_file encode ts)))
  = Err BufferInsufficient.
Proof.
  intros Hfb.
  destruct (get_metadata_root_written decode encode ts Hfb) as [H1 _].
  destruct (get_metadata_root decode (open_bytes (written_file encode ts))) as [r s'] eqn:E.
  simpl in H1. subst r.
  unfold get_tensor_data_by_id, get_tensor_metadata, bind. rewrite E. reflexivity.
Qed.

(** The table the writer records for [ts]. *)
Lemma build_metadata_tensors (ts : list Tensor.t) :
  TensorBuffersMetadata.tensors (build_metadata ts)
  = Some (map (fun '(t, o) => tensor_metadata_of t o) (combine ts (data_offsets 4 ts))).
Proof. reflexivity. Qed.

(** ** C1: round trip through the facade *)

(** C1 (code_bug).  The round trip does not hold: on every file the writer
    produces (trailer of 1 to 2^32 - 1 bytes), looking any tensor up through
    the facade, by id or by name and for any element kind, fails with
    "Buffer size is insufficient", because [get_metadata_root] hands
    [read_metadata] a [BytesMut::with_capacity] buffer of length 0. *)
Theorem C1_roundtrip_fails_on_written_file decode encode (ts : list Tensor.t) k :
  (0 < Z.of_nat (List.length (encode (build_metadata ts))) < 2 ^ 32) ->
  forall t, In t ts ->
  fst (get_tensor_data_by_id decode k (Tensor.id t) (open_bytes (written_file encode ts)))
    = Err BufferInsufficient
  /\ fst (get_tensor_data_by_name decode k (Tensor.name t) (open_bytes (written_file encode ts)))
    = Err BufferInsufficient.
Proof.
  intros Hfb t _. split.
  - apply get_tensor_data_by_id_written; assumption.
  - unfold get_tensor_data_by_name. apply get_tensor_data_by_id_written; assumption.
Qed.

Lemma C1_roundtrip_fails_on_written_file_witness :
  (0 < Z.of_nat (List.length (small_encode (build_metadata three_tensors))) < 2 ^ 32)
  /\ fst (get_tensor_data_by_id (fun _ => Some (build_metadata three_tensors)) Float32
            (hash_key "1") (open_bytes (written_file small_encode three_tensors)))
     = Err BufferInsufficient.
Proof.
  split; [simpl; lia |].
  apply (C1_roundtrip_fails_on_written_file (fun _ => Some (build_metadata three_tensors))
           small_encode three_tensors Float32 ltac:(simpl; lia)
           (Tensor.new Float32 "1" f32_1_2_3 [3]) ltac:(simpl; auto)).
Defined.

(** ** C3: type safety *)

(** C3 (code_bug).  On every written file and every stored tensor, asking
    for a kind different from the stored one does not fail with a type
    mismatch, and asking for the stored kind does not succeed: both fail
    with "Buffer size is insufficient" at [get_metadata_root]. *)
Theorem C3_kind_check_unreachable decode encode (ts : list Tensor.t) :
  (0 < Z.of_nat (List.length (encode (build_metadata ts))) < 2 ^ 32) ->
  forall t, In t ts ->
  (forall k, k <> Tensor.data_type t ->
     fst (get_tensor_data_by_id decode k (Tensor.id t) (open_bytes (written_file encode ts)))
       = Err BufferInsufficient
     /\ fst (get_tensor_data_by_id decode k (Tensor.id t) (open_bytes (written_file encode ts)))
       <> Err TypeMismatch)
  /\ (forall r, fst (get_tensor_data_by_id decode (Tensor.data_type t) (Tensor.id t)
                      (open_bytes (written_file encode ts))) <> Ok r).
Proof.
  intros Hfb t _. split.
  - intros k _. rewrite get_tensor_data_by_id_written by assumption.
    split; [reflexivity | discriminate].
  - intros r. rewrite get_tensor_data_by_id_written by assumption. discriminate.
Qed.

Lemma C3_kind_check_unreachable_witness :
  (0 < Z.of_nat (List.length (small_encode (build_metadata three_tensors))) < 2 ^ 32)
  /\ fst (get_tensor_data_by_id (fun _ => Some (build_metadata three_tensors)) Int32
            (hash_key "1") (open_bytes (written_file small_encode three_tensors)))
     = Err BufferInsufficient.
Proof.
  split; [simpl; lia |].
  apply (proj1 (proj1 (C3_kind_check_unreachable (fun _ => Some (build_metadata three_tensors))
           small_encode three_tensors ltac:(simpl; lia)
           (Tensor.new Float32 "1" f32_1_2_3 [3]) ltac:(simpl; auto)) Int32
           ltac:(discriminate))).
Defined.

(** ** C4: lookup by name and by id *)

(** C4 (code_bug).  Looking up by name is looking up by [hash_key] of the
    name, in every state.  But on every written file a lookup of any id,
    present or absent, fails with "Buffer size is insufficient" rather than
    returning the metadata or a not-found error.  Independently,
    [lookup_by_key] is a binary search and the writer stores the table in
    input order: for the tensors "1", "2", "3" the id of "3" is in the
    table and the search misses it. *)
Theorem C4_lookup_diverges decode encode (ts : list Tensor.t) :
  (0 < Z.of_nat (List.length (encode (build_metadata ts))) < 2 ^ 32) ->
  (forall k n tb, get_tensor_data_by_name decode k n tb
                  = get_tensor_data_by_id decode k (hash_key n) tb)
  /\ (forall k tensor_id,
        fst (get_tensor_data_by_id decode k tensor_id (open_bytes (written_file encode ts)))
          = Err BufferInsufficient)
  /\ (exists tbl md,
        TensorBuffersMetadata.tensors (build_metadata three_tensors) = Some tbl
        /\ In md tbl /\ TensorMetadata.id md = hash_key "3"
        /\ lookup_by_key tbl (hash_key "3") = None).
Proof.
  intros Hfb. split; [| split].
  - intros k n tb. reflexivity.
  - intros k tensor_id. apply get_tensor_data_by_id_written; assumption.
  - rewrite build_metadata_tensors.
    eexists; exists (tensor_metadata_of (Tensor.new Float32 "3" f32_1_2_3 [3]) 28).
    split; [reflexivity |]. split; [simpl; auto |]. split; [reflexivity |].
    vm_compute. reflexivity.
Qed.

Lemma C4_lookup_diverges_witness :
  (0 < Z.of_nat (List.length (small_encode (build_metadata three_tensors))) < 2 ^ 32)
  /\ fst (get_tensor_data_by_id (fun _ => Some (build_metadata three_tensors)) Float32
            (hash_key "3") (open_bytes (written_file small_encode three_tensors)))
     = Err BufferInsufficient.
Proof.
  split; [simpl; lia |].
  apply (proj1 (proj2 (C4_lookup_diverges (fun _ => Some (build_metadata three_tensors))
           small_encode three_tensors ltac:(simpl; lia)))).
Defined.

(** ** C2: tampering with the sentinels *)

Lemma skipn_4_magic (r r' : list byte) : skipn 4 ((MAGIC_BYTES ++ r) ++ r') = r ++ r'.
Proof. reflexivity. Qed.

Lemma bytes_eqb_false (a b : list byte) : a <> b -> bytes_eqb a b = false.
Proof. unfold bytes_eqb. destruct (list_eq_dec _ a b); congruence. Qed.

(** A file whose first 4 bytes are not the magic is rejected, whatever the
    rest; used for the tampered writer output. *)
Lemma read_metadata_bad_head (h r le tail : list byte) n pos log :
  List.length h = 4%nat -> h <> MAGIC_BYTES ->
  List.length le = 4%nat -> List.length tail = 4%nat ->
  fst (read_metadata n (mkSource ((h ++ r) ++ le ++ tail) pos log)) = Err InvalidMagic.
Proof.
  intros Hh Hne Hle Ht.
  rewrite read_metadata_layout by assumption.
  rewrite <- app_assoc.
  replace (firstn 4 (h ++ r ++ le ++ tail)) with h
    by (rewrite <- Hh; symmetry; apply firstn_length_app).
  rewrite bytes_eqb_false by assumption. reflexivity.
Qed.

(** C2 (corrected, the claim as amended).  For every file the writer
    produces (trailer of 1 to 2^32 - 1 bytes): replacing its first 4 bytes by
    any 4 bytes other than the magic makes [read_metadata] fail with
    "Invalid magic bytes", for every buffer; the last 4 bytes are never
    checked, so replacing them by any 4 bytes leaves [read_metadata]
    succeeding, with a buffer of [metadata_size] bytes, and returning the
    trailer. *)
Theorem C2_only_leading_magic_checked encode (ts : list Tensor.t) :
  (0 < Z.of_nat (List.length (encode (build_metadata ts))) < 2 ^ 32) ->
  let file := written_file encode ts in
  (forall h n pos log, List.length h = 4%nat -> h <> MAGIC_BYTES ->
     fst (read_metadata n (mkSource (h ++ skipn 4 file) pos log)) = Err InvalidMagic)
  /\ (forall tail pos log, List.length tail = 4%nat ->
     fst (read_metadata (List.length (encode (build_metadata ts)))
            (mkSource (firstn (List.length file - 4) file ++ tail) pos log))
     = Ok (encode (build_metadata ts))).
Proof.
  intros Hfb file. unfold file. rewrite written_file_layout.
  set (fb := encode (build_metadata ts)) in *.
  set (data := List.concat (map Tensor.data ts)).
  set (le := u32_to_le_bytes (wrap_u32 (Z.of_nat (List.length fb)))).
  assert (Hms : u32_from_le_bytes le = Z.of_nat (List.length fb)).
  { unfold le, wrap_u32. rewrite Z.mod_small by lia. apply u32_from_to_le_bytes. lia. }
  split.
  - intros h n pos log Hh Hne.
    rewrite skipn_4_magic, app_assoc.
    apply read_metadata_bad_head; try assumption; reflexivity.
  - intros tail pos log Ht.
    set (P := MAGIC_BYTES ++ data ++ fb).
    assert (Hcut : firstn (List.length (P ++ le ++ MAGIC_BYTES) - 4) (P ++ le ++ MAGIC_BYTES)
                   = P ++ le).
    { rewrite app_assoc.
      replace (List.length ((P ++ le) ++ MAGIC_BYTES) - 4)%nat with (List.length (P ++ le))
        by (rewrite !length_app; simpl; lia).
      apply firstn_length_app. }
    rewrite Hcut, <- app_assoc.
    rewrite read_metadata_layout by (try assumption; reflexivity).
    unfold P at 1. rewrite firstn_4_magic, bytes_eqb_refl. cbv iota beta. simpl negb.
    cbv iota. rewrite Hms.
    assert (HL : Z.of_nat (List.length (P ++ le ++ tail))
                 = Z.of_nat (List.length (MAGIC_BYTES ++ data)) + Z.of_nat (List.length fb) + 8)
      by (unfold P, le; rewrite !length_app, Ht, length_u32_to_le_bytes; lia).
    rewrite HL.
    rewrite (proj2 (Z.ltb_ge _ _)) by lia.
    rewrite (proj2 (Z.ltb_ge _ _)) by lia.
    rewrite (proj2 (Z.leb_le _ _)) by lia.
    f_equal.
    replace (Z.to_nat (Z.of_nat (List.length (MAGIC_BYTES ++ data)) + Z.of_nat (List.length fb)
                       + 8 - (Z.of_nat (List.length fb) + 8)))
      with (List.length (MAGIC_BYTES ++ data)) by lia.
    unfold P. rewrite (app_assoc MAGIC_BYTES data), <- (app_assoc (MAGIC_BYTES ++ data) fb).
    rewrite skipn_length_app. apply firstn_length_app.
Qed.

Lemma C2_only_leading_magic_checked_witness :
  (0 < Z.of_nat (List.length (small_encode (build_metadata three_tensors))) < 2 ^ 32)
  /\ fst (read_metadata 3%nat (mkSource ([x00; x00; x00; x00]
                                      ++ skipn 4 (written_file small_encode three_tensors)) 0 []))
     = Err InvalidMagic.
Proof.
  split; [simpl; lia |].
  apply (proj1 (C2_only_leading_magic_checked small_encode three_tensors ltac:(simpl; lia))
           [x00; x00; x00; x00] 3%nat 0 [] ltac:(reflexivity) ltac:(discriminate)).
Defined.

(** C2: the claim as stated fails.  Writer output for the tensors "1", "2",
    "3" with its last 4 bytes zeroed: [read_metadata] with a buffer of
    [metadata_size] bytes succeeds. *)
Lemma C2_trailing_magic_tamper_accepted :
  let file := written_file small_encode three_tensors in
  let tampered := firstn (List.length file - 4) file ++ [x00; x00; x00; x00] in
  skipn (List.length tampered - 4) tampered <> MAGIC_BYTES
  /\ fst (read_metadata 3%nat (mkSource tampered 0 [])) = Ok [x01; x02; x03].
Proof. vm_compute. split; [discriminate | reflexivity]. Qed.

(** ** C6: the trailer location protocol *)

(** C6 (corrected, the claim as amended).  For a byte source
    [pre ++ le ++ MAGIC_BYTES] with [le] 4 bytes, of length [L], and
    [ms = u32::from_le_bytes(le)]: [get_metadata_size] returns [ms].
    [read_metadata] first checks the leading 4 bytes: if they are not the
    magic it fails with "Invalid magic bytes" whatever the buffer.  If they
    are, a buffer shorter than [ms] fails with "Buffer size is insufficient";
    if [ms + 8 > L] a buffer of at least [ms] bytes fails on the seek; and if
    [ms + 8 <= L] a buffer of exactly [ms] bytes is filled with the bytes
    [L - ms - 8 .. L - 8). *)
Theorem C6_trailer_location (pre le : list byte) pos log :
  List.length le = 4%nat ->
  let bs := pre ++ le ++ MAGIC_BYTES in
  let L := Z.of_nat (List.length bs) in
  let ms := u32_from_le_bytes le in
  fst (get_metadata_size (mkSource bs pos log)) = Ok ms
  /\ (firstn 4 bs <> MAGIC_BYTES ->
      forall n, fst (read_metadata n (mkSource bs pos log)) = Err InvalidMagic)
  /\ (firstn 4 bs = MAGIC_BYTES ->
      (forall n, Z.of_nat n < ms ->
         fst (read_metadata n (mkSource bs pos log)) = Err BufferInsufficient)
      /\ (forall n, ms <= Z.of_nat n -> L < ms + 8 ->
         fst (read_metadata n (mkSource bs pos log)) = Err InvalidInput)
      /\ (ms + 8 <= L ->
         fst (read_metadata (Z.to_nat ms) (mkSource bs pos log))
         = Ok (firstn (Z.to_nat ms) (skipn (Z.to_nat (L - ms - 8)) bs)))).
Proof.
  intros Hle bs L ms.
  assert (Hms0 : 0 <= ms)
    by (unfold ms, u32_from_le_bytes;
        destruct le as [|? [|? [|? [|? [|]]]]]; try lia; unfold Z_of_byte; lia).
  split; [| split].
  - unfold bs. rewrite get_metadata_size_layout by (try assumption; reflexivity).
    reflexivity.
  - intros Hne n. unfold bs. rewrite read_metadata_layout by (try assumption; reflexivity).
    fold bs. rewrite bytes_eqb_false by assumption. reflexivity.
  - intros Heq.
    assert (Hrm : forall n, fst (read_metadata n (mkSource bs pos log))
              = if Z.of_nat n <? ms then Err BufferInsufficient
                else if L - (ms + 8) <? 0 then Err InvalidInput
                else if L - (ms + 8) + Z.of_nat n <=? L
                     then Ok (firstn n (skipn (Z.to_nat (L - (ms + 8))) bs))
                     else Err UnexpectedEof).
    { intros n. unfold bs. rewrite read_metadata_layout by (try assumption; reflexivity).
      fold bs L ms. rewrite Heq, bytes_eqb_refl. reflexivity. }
    split; [| split].
    + intros n Hn. rewrite Hrm, (proj2 (Z.ltb_lt _ _)) by lia. reflexivity.
    + intros n Hn HL. rewrite Hrm.
      rewrite (proj2 (Z.ltb_ge _ _)) by lia.
      rewrite (proj2 (Z.ltb_lt _ _)) by lia. reflexivity.
    + intros HL. rewrite Hrm.
      rewrite (proj2 (Z.ltb_ge _ _)) by lia.
      rewrite (proj2 (Z.ltb_ge _ _)) by lia.
      rewrite (proj2 (Z.leb_le _ _)) by lia.
      replace (L - (ms + 8)) with (L - ms - 8) by lia. reflexivity.
Qed.

Lemma C6_trailer_location_witness :
  List.length (u32_to_le_bytes 3) = 4%nat
  /\ fst (read_metadata 3%nat
            (mkSource (MAGIC_BYTES ++ [x07; x08; x09] ++ u32_to_le_bytes 3 ++ MAGIC_BYTES) 0 []))
     = Ok [x07; x08; x09].
Proof.
  split; [reflexivity |].
  pose proof (proj2 (proj2 (C6_trailer_location (MAGIC_BYTES ++ [x07; x08; x09])
                              (u32_to_le_bytes 3) 0 [] ltac:(reflexivity)))
                ltac:(reflexivity)) as [_ [_ H]].
  rewrite <- app_assoc in H. exact (H ltac:(vm_compute; congruence)).
Defined.

(** C6: the claim as stated fails.  A source whose last 8 bytes are
    [1 (LE u32)][magic] but whose first 4 bytes are zero: [read_metadata]
    with a buffer of [metadata_size] = 1 byte fails with a format error
    instead of returning the byte at [L - 1 - 8]. *)
Lemma C6_leading_magic_checked_first :
  let bs := [x00; x00; x00; x00] ++ u32_to_le_bytes 1 ++ MAGIC_BYTES in
  fst (get_metadata_size (mkSource bs 0 [])) = Ok 1
  /\ fst (read_metadata 1%nat (mkSource bs 0 [])) = Err InvalidMagic.
Proof. vm_compute. split; reflexivity. Qed.

(** ** C5: writer layout and offset bookkeeping *)

Lemma wrap_u32_wrap_u64_add (a s : Z) : wrap_u32 (wrap_u64 a + s) = wrap_u32 (a + s).
Proof.
  unfold wrap_u32, wrap_u64. rewrite (Z.mod_eq a) by lia.
  replace (a - 2 ^ 64 * (a / 2 ^ 64) + s) with (a + s + (- (a / 2 ^ 64) * 2 ^ 32) * 2 ^ 32)
    by lia.
  apply Z.mod_add. lia.
Qed.

Lemma wrap_u32_add_wrap (c l s : Z) : wrap_u32 (c + wrap_u32 l + s) = wrap_u32 (c + l + s).
Proof.
  unfold wrap_u32. rewrite (Z.mod_eq l) by lia.
  replace (c + (l - 2 ^ 32 * (l / 2 ^ 32)) + s) with (c + l + s + (- (l / 2 ^ 32)) * 2 ^ 32)
    by lia.
  apply Z.mod_add. lia.
Qed.

(** The running cursor: tensor [i] is recorded at [cur] plus the byte
    lengths of tensors [0 .. i), modulo 2^32. *)
Lemma data_offsets_nth (ts : list Tensor.t) (cur : Z) (i : nat) (t : Tensor.t) :
  nth_error ts i = Some t ->
  nth_error (data_offsets cur ts) i
  = Some (wrap_u32 (cur + fold_right Z.add 0
                     (map (fun t => Z.of_nat (List.length (Tensor.data t))) (firstn i ts)))).
Proof.
  revert cur i. induction ts as [|t0 ts IH]; intros cur i H.
  - destruct i; discriminate.
  - destruct i as [|i]; simpl in H |- *.
    + inversion H; subst. rewrite Z.add_0_r. reflexivity.
    + rewrite (IH _ _ H). f_equal.
      rewrite wrap_u32_wrap_u64_add, wrap_u32_add_wrap. f_equal. lia.
Qed.

Lemma nth_error_combine {A B} (l1 : list A) (l2 : list B) i a b :
  nth_error l1 i = Some a -> nth_error l2 i = Some b ->
  nth_error (combine l1 l2) i = Some (a, b).
Proof.
  revert l2 i. induction l1 as [|x l1 IH]; intros l2 i H1 H2.
  - destruct i; discriminate.
  - destruct l2 as [|y l2]; [destruct i; discriminate |].
    destruct i; simpl in *; [congruence | auto].
Qed.

(** C5 (corrected, the claim as amended).  [write_tensors] calls, in order,
    [write_all(magic)], [write_all] of each tensor's bytes in input order,
    [write_all(trailer)], [write(metadata_size LE u32)], [write(magic)] and
    [flush]; a sink that takes each write in full holds
    [magic | data blocks | trailer | metadata_size LE | magic].  Tensor [i]'s
    metadata records data_offset = (4 + byte lengths of tensors 0..i-1)
    mod 2^32 and data_size = (its byte length) mod 2^32: the u32 fields
    equal the plain sums while they stay below 2^32. *)
Theorem C5_writer_layout encode (ts : list Tensor.t) (i : nat) (t : Tensor.t) :
  nth_error ts i = Some t ->
  let fb := encode (build_metadata ts) in
  write_tensors encode ts
    = [WriteAll MAGIC_BYTES] ++ map (fun t => WriteAll (Tensor.data t)) ts
      ++ [WriteAll fb; Write (u32_to_le_bytes (wrap_u32 (Z.of_nat (List.length fb))));
          Write MAGIC_BYTES; Flush]
  /\ written_file encode ts
    = MAGIC_BYTES ++ List.concat (map Tensor.data ts) ++ fb
      ++ u32_to_le_bytes (wrap_u32 (Z.of_nat (List.length fb))) ++ MAGIC_BYTES
  /\ exists tbl md,
       TensorBuffersMetadata.tensors (build_metadata ts) = Some tbl
       /\ nth_error tbl i = Some md
       /\ TensorMetadata.id md = Tensor.id t
       /\ TensorMetadata.data_offset md
          = wrap_u32 (4 + fold_right Z.add 0
                           (map (fun t => Z.of_nat (List.length (Tensor.data t))) (firstn i ts)))
       /\ TensorMetadata.data_size md = wrap_u32 (Z.of_nat (List.length (Tensor.data t))).
Proof.
  intros Hi fb. split; [| split].
  - reflexivity.
  - rewrite written_file_layout. rewrite <- !app_assoc. reflexivity.
  - rewrite build_metadata_tensors.
    pose proof (data_offsets_nth ts 4 i t Hi) as Ho.
    eexists; eexists. split; [reflexivity |]. split.
    + rewrite nth_error_map, (nth_error_combine _ _ _ _ _ Hi Ho). reflexivity.
    + simpl. repeat split.
Qed.

Lemma C5_writer_layout_witness :
  nth_error three_tensors 2 = Some (Tensor.new Float32 "3" f32_1_2_3 [3])
  /\ exists tbl md,
       TensorBuffersMetadata.tensors (build_metadata three_tensors) = Some tbl
       /\ nth_error tbl 2 = Some md /\ TensorMetadata.data_offset md = 28.
Proof.
  split; [reflexivity |].
  destruct (proj2 (proj2 (C5_writer_layout small_encode three_tensors 2
                            (Tensor.new Float32 "3" f32_1_2_3 [3]) ltac:(reflexivity))))
    as [tbl [md [H1 [H2 [_ [H3 _]]]]]].
  exists tbl, md. split; [exact H1 |]. split; [exact H2 |].
  rewrite H3. vm_compute. reflexivity.
Defined.

(** C5: the claim as stated fails.  A first tensor of 2^32 bytes and a
    second of 1 byte: the second's recorded offset is 4, not 4 + 2^32, and
    the first's recorded size is 0. *)
Lemma C5_offsets_truncated_to_u32 :
  let big := Tensor.new UInt8 "a" (repeat x00 (Z.to_nat (2 ^ 32))) [2 ^ 32] in
  let small := Tensor.new UInt8 "b" [x00] [1] in
  nth_error (data_offsets 4 [big; small]) 1 = Some 4
  /\ 4 <> 4 + Z.of_nat (List.length (Tensor.data big))
  /\ TensorMetadata.data_size (tensor_metadata_of big 4) = 0.
Proof.
  intros big small.
  assert (Hlen : Z.of_nat (List.length (Tensor.data big)) = 2 ^ 32).
  { unfold big, Tensor.new. cbn [Tensor.data]. rewrite repeat_length.
    rewrite Z2Nat.id; [reflexivity | lia]. }
  split; [| split].
  - rewrite (data_offsets_nth [big; small] 4 1 small eq_refl).
    cbn [firstn map fold_right]. rewrite Hlen. reflexivity.
  - rewrite Hlen. lia.
  - unfold tensor_metadata_of. cbn [TensorMetadata.data_size]. rewrite Hlen. reflexivity.
Qed.

(** ** C7: the order of the checks in [get_tensor_data_by_id] *)

Lemma DataType_eqb_eq (a b : DataType) : DataType_eqb a b = true <-> a = b.
Proof. destruct a, b; simpl; split; congruence. Qed.

Lemma with_reader_step {A B} (m : M Source A) (k : A -> M TensorBuffers B) tb a s' :
  m (reader tb) = (Ok a, s') ->
  bind (with_reader m) k tb = k a (mkTensorBuffers (metadata_root tb) s').
Proof. intros H. unfold bind, with_reader. rewrite H. reflexivity. Qed.

Lemma read_data_with_metadata_ok (md : TensorMetadata.t) bs pos log :
  let off := TensorMetadata.data_offset md in
  let size := TensorMetadata.data_size md in
  0 <= off -> 0 <= size -> off + size <= Z.of_nat (List.length bs) ->
  read_data_with_metadata md (Z.to_nat size) (mkSource bs pos log)
  = (Ok (firstn (Z.to_nat size) (skipn (Z.to_nat off) bs)),
     mkSource bs (off + size)
       (if size =? 0 then log ++ [EvSeek (Start off)]
        else (log ++ [EvSeek (Start off)]) ++ [EvRead off (Z.to_nat size)])).
Proof.
  intros off size H0 H1 H2. unfold read_data_with_metadata. fold off size.
  erewrite bind_ok; [| apply seek_ok; [reflexivity | assumption]].
  rewrite (proj2 (Z.ltb_ge _ _)) by lia.
  destruct (Z.eqb_spec size 0) as [E | E].
  - rewrite E. cbn [Z.to_nat]. rewrite read_exact_zero, Z.add_0_r. reflexivity.
  - rewrite read_exact_ok by lia.
    rewrite Z2Nat.id by lia. reflexivity.
Qed.

Lemma with_reader_root {A} (m : M Source A) tb r tb1 :
  with_reader m tb = (r, tb1) -> metadata_root tb1 = metadata_root tb.
Proof.
  unfold with_reader. destruct (m (reader tb)) as [r' s']. intros H. inversion H. reflexivity.
Qed.

Lemma with_reader_run {A} (m : M Source A) tb r tb1 :
  with_reader m tb = (r, tb1) -> m (reader tb) = (r, reader tb1).
Proof.
  unfold with_reader. destruct (m (reader tb)) as [r' s']. intros H. inversion H. reflexivity.
Qed.

(** [read_metadata] into the empty slice can only succeed with nothing read. *)
Lemma read_metadata_empty_buffer s buf s' :
  read_metadata 0 s = (Ok buf, s') -> buf = [].
Proof.
  unfold read_metadata, bind, fail.
  destruct (seek (Start 0) s) as [[? | ?] s1]; [| discriminate].
  destruct (read_exact 4 s1) as [[mb | ?] s2]; [| discriminate].
  destruct (negb (bytes_eqb mb MAGIC_BYTES)); [discriminate |].
  destruct (get_metadata_size s2) as [[ms | ?] s3]; [| discriminate].
  destruct (Z.of_nat 0 <? ms); [discriminate |].
  destruct (seek (End (- (ms + 8))) s3) as [[? | ?] s4]; [| discriminate].
  rewrite read_exact_zero. congruence.
Qed.

(** With a decoder that rejects the empty buffer, [get_metadata_root] on an
    empty cache always fails and leaves the cache empty. *)
Lemma get_metadata_root_uncached_fails decode tb :
  decode [] = None -> metadata_root tb = None ->
  exists e tb1, get_metadata_root decode tb = (Err e, tb1) /\ metadata_root tb1 = None.
Proof.
  intros Hd Hc. unfold get_metadata_root. rewrite Hc.
  unfold bind at 1.
  destruct (with_reader get_metadata_size tb) as [[ms | e] tb1] eqn:E1.
  2:{ exists e, tb1. split; [reflexivity |]. rewrite (with_reader_root _ _ _ _ E1). exact Hc. }
  unfold bind at 1.
  destruct (with_reader (read_metadata 0) tb1) as [[buf | e] tb2] eqn:E2.
  2:{ exists e, tb2. split; [reflexivity |].
      rewrite (with_reader_root _ _ _ _ E2), (with_reader_root _ _ _ _ E1). exact Hc. }
  apply with_reader_run in E2 as E2'. apply read_metadata_empty_buffer in E2'. subst buf.
  rewrite Hd. exists MetadataDecode, tb2. split; [reflexivity |].
  rewrite (with_reader_root _ _ _ _ E2), (with_reader_root _ _ _ _ E1). exact Hc.
Qed.

(** C7 (confirmed).  [TensorBuffers::open] starts with an empty cache and
    only [get_metadata_root] fills it; with [flatbuffers::root] rejecting the
    empty buffer, that never happens (see [get_metadata_root_uncached_fails]).
    So on every [TensorBuffers] the code can build, [get_tensor_data_by_id]
    ends with the error of [get_metadata_root] and in the state it leaves:
    none of the kind, range and size checks runs, the tensor's byte range
    is never read, and a size that is not a multiple of the element size
    fails without any data read.  (The function body itself reads the range
    before the size check; that order is never reached.) *)
Theorem C7_no_data_read_reachable decode k tensor_id tb :
  decode [] = None ->
  metadata_root tb = None ->
  exists e tb1,
    get_metadata_root decode tb = (Err e, tb1)
    /\ get_tensor_data_by_id decode k tensor_id tb = (Err e, tb1)
    /\ metadata_root tb1 = None.
Proof.
  intros Hd Hc.
  destruct (get_metadata_root_uncached_fails decode tb Hd Hc) as [e [tb1 [G R]]].
  exists e, tb1. split; [exact G |]. split; [| exact R].
  unfold get_tensor_data_by_id, get_tensor_metadata.
  rewrite (bind_err _ _ _ _ _ (bind_err _ _ _ _ _ G)). reflexivity.
Qed.

Lemma C7_no_data_read_reachable_witness :
  (fun _ : list byte => @None TensorBuffersMetadata.t) [] = None
  /\ metadata_root (open_bytes (written_file small_encode three_tensors)) = None
  /\ exists e tb1,
       get_tensor_data_by_id (fun _ => None) Float32 (hash_key "1")
         (open_bytes (written_file small_encode three_tensors)) = (Err e, tb1).
Proof.
  split; [reflexivity |]. split; [reflexivity |].
  destruct (C7_no_data_read_reachable (fun _ => None) Float32 (hash_key "1")
              (open_bytes (written_file small_encode three_tensors)) eq_refl eq_refl)
    as [e [tb1 [_ [H _]]]].
  exists e, tb1. exact H.
Defined.

(** ** C8: the remote read protocol *)

(** C8 (corrected, the claim as amended).  While a fetch is pending,
    [poll_read] issues no new request.  From [Idle], with
    [offset <= file_size < 2^64], let [size = min(file_size - offset,
    capacity)]: if [size = 0] (cursor at end of file, or a buffer of
    capacity 0) the call completes at once, with no request and nothing
    changed; otherwise it issues exactly one GET with
    [Range: bytes=offset-(offset+size-1)] and enters [Fetch]; if the fetch
    is not ready the call is pending, and if it completes with bytes that fit
    in the buffer's remaining space they are appended to the buffer, the
    cursor advances by their number and the state returns to [Idle]. *)
Theorem C8_remote_read_protocol (rf : RemoteFile) (buf : ReadBuf) (net : FetchPoll) :
  (forall o s, state rf = Fetch o s -> snd (poll_read rf buf net) = [])
  /\ (state rf = Idle -> 0 <= offset rf <= file_size rf -> file_size rf < 2 ^ 64 ->
      let size := Z.min (file_size rf - offset rf) (Z.of_nat (capacity buf)) in
      (size = 0 -> poll_read rf buf net = (Ready (Ok tt), rf, buf, []))
      /\ (size <> 0 ->
          snd (poll_read rf buf net)
            = [mkRequest (url rf) ("bytes=" ++ string_of_u64 (offset rf) ++ "-"
                                   ++ string_of_u64 (offset rf + size - 1))]
          /\ (net = NotReady ->
              fst (poll_read rf buf net)
              = (Pending, mkRemoteFile (url rf) (offset rf) (file_size rf)
                                       (Fetch (offset rf) size), buf))
          /\ (forall bytes, net = Done (Ok bytes) ->
              Z.of_nat (List.length bytes) <= remaining buf ->
              offset rf + Z.of_nat (List.length bytes) < 2 ^ 64 ->
              fst (poll_read rf buf net)
              = (Ready (Ok tt),
                 mkRemoteFile (url rf) (offset rf + Z.of_nat (List.length bytes))
                              (file_size rf) Idle,
                 mkReadBuf (capacity buf) (filled buf ++ bytes))))).
Proof.
  split.
  - intros o s Hs. unfold poll_read. rewrite Hs.
    destruct (poll_fetch rf _ _ buf net) as [[p rf2] buf2]. reflexivity.
  - intros Hs Hoff Hfs size.
    assert (Hw : wrap_u64 (file_size rf - offset rf) = file_size rf - offset rf)
      by (unfold wrap_u64; apply Z.mod_small; lia).
    unfold poll_read. rewrite Hs, Hw. fold size.
    split.
    + intros H0. rewrite H0. reflexivity.
    + intros Hne. rewrite (proj2 (Z.eqb_neq _ _) Hne).
      assert (Hsz : 0 < size) by (unfold size; lia).
      assert (Hr : wrap_u64 (offset rf + size - 1) = offset rf + size - 1)
        by (unfold wrap_u64; apply Z.mod_small; unfold size in *; lia).
      split; [| split].
      * destruct (poll_fetch _ _ _ buf net) as [[p rf2] buf2].
        simpl. unfold fetch_range, range_header. rewrite Hr. reflexivity.
      * intros ->. reflexivity.
      * intros bytes -> Hfit Hov. cbn.
        rewrite (proj2 (Z.ltb_ge _ _) Hfit).
        unfold wrap_u64. rewrite Z.mod_small by lia. reflexivity.
Qed.

Lemma C8_remote_read_protocol_witness :
  let rf := mkRemoteFile "https://example.org/model.tb" 1000 2048 Idle in
  state rf = Idle /\ 0 <= offset rf <= file_size rf /\ file_size rf < 2 ^ 64
  /\ snd (poll_read rf (mkReadBuf 24 []) NotReady)
     = [mkRequest "https://example.org/model.tb" ("bytes=" ++ string_of_u64 1000 ++ "-"
                                                  ++ string_of_u64 1023)].
Proof.
  intros rf. split; [reflexivity | split; [simpl; lia | split; [reflexivity |]]].
  apply (proj1 (proj2 (proj2 (C8_remote_read_protocol rf (mkReadBuf 24 []) NotReady)
                        eq_refl ltac:(simpl; lia) ltac:(reflexivity))
                  ltac:(vm_compute; discriminate))).
Defined.

(** C8: the claim as stated fails.  Cursor 0 of a 10-byte file, buffer of
    capacity 0: the remaining bytes are 10, yet the call completes at once
    and issues no fetch. *)
Lemma C8_zero_capacity_no_fetch :
  let rf := mkRemoteFile "https://example.org/model.tb" 0 10 Idle in
  file_size rf - offset rf <> 0
  /\ poll_read rf (mkReadBuf 0 []) NotReady = (Ready (Ok tt), rf, mkReadBuf 0 [], []).
Proof. split; [discriminate | reflexivity]. Qed.

(** ** C9: remote seeks *)

(** C9 (confirmed).  [start_seek] issues no request and changes only the
    cursor: [url], [file_size] and the read state are kept.  [Start n] sets
    the cursor to [n]; [End d] and [Current d] fail with [InvalidInput]
    exactly when [base + d] leaves the [u64] range (base [file_size],
    resp. the cursor), keeping the cursor, and otherwise set it to
    [base + d]. *)
Theorem C9_seek_only_moves_cursor (rf : RemoteFile) (p : SeekFrom) :
  match start_seek rf p with
  | (r, rf', reqs) =>
      reqs = [] /\ url rf' = url rf /\ file_size rf' = file_size rf /\ state rf' = state rf
      /\ match p with
         | Start n => r = Ok tt /\ offset rf' = n
         | End d =>
             (r = Err InvalidInput <-> ~ (0 <= file_size rf + d < 2 ^ 64))
             /\ (r = Err InvalidInput -> offset rf' = offset rf)
             /\ (r = Ok tt -> offset rf' = file_size rf + d)
         | Current d =>
             (r = Err InvalidInput <-> ~ (0 <= offset rf + d < 2 ^ 64))
             /\ (r = Err InvalidInput -> offset rf' = offset rf)
             /\ (r = Ok tt -> offset rf' = offset rf + d)
         end
  end.
Proof.
  destruct p as [n|d|d]; unfold start_seek, checked_add_signed.
  - simpl. repeat split.
  - destruct ((0 <=? file_size rf + d) && (file_size rf + d <? 2 ^ 64)) eqn:E.
    + apply andb_true_iff in E as [E1 E2].
      apply Z.leb_le in E1. apply Z.ltb_lt in E2.
      simpl. repeat split; intros; try discriminate; try reflexivity.
      exfalso. match goal with H : ~ _ |- _ => apply H; lia end.
    + assert (Hn : ~ (0 <= file_size rf + d < 2 ^ 64)).
      { intros [H1 H2]. apply Z.leb_le in H1. apply Z.ltb_lt in H2.
        rewrite H1, H2 in E. discriminate. }
      simpl. repeat split; intros; try discriminate; try reflexivity; exact Hn.
  - destruct ((0 <=? offset rf + d) && (offset rf + d <? 2 ^ 64)) eqn:E.
    + apply andb_true_iff in E as [E1 E2].
      apply Z.leb_le in E1. apply Z.ltb_lt in E2.
      simpl. repeat split; intros; try discriminate; try reflexivity.
      exfalso. match goal with H : ~ _ |- _ => apply H; lia end.
    + assert (Hn : ~ (0 <= offset rf + d < 2 ^ 64)).
      { intros [H1 H2]. apply Z.leb_le in H1. apply Z.ltb_lt in H2.
        rewrite H1, H2 in E. discriminate. }
      simpl. repeat split; intros; try discriminate; try reflexivity; exact Hn.
Qed.

(** ** C10: a cursor past the end of the file *)

(** C10 (confirmed).  [start_seek(Start(file_size + 1))] succeeds (seeks
    never compare the cursor with [file_size]); the next [poll_read] then
    computes [file_size - offset] below zero, so the [u64] subtraction
    underflows (it wraps to 2^64 - 1, or panics in a debug build), and
    with a non-empty buffer the read issues a range fetch past the end
    instead of completing with zero bytes. *)
Theorem C10_seek_past_eof_underflows (rf : RemoteFile) (buf : ReadBuf) (net : FetchPoll) :
  state rf = Idle -> 0 <= file_size rf -> file_size rf + 1 < 2 ^ 64 ->
  (0 < capacity buf)%nat -> Z.of_nat (capacity buf) < 2 ^ 64 ->
  match start_seek rf (Start (file_size rf + 1)) with
  | (r, rf1, _) =>
      r = Ok tt
      /\ file_size rf1 < offset rf1
      /\ file_size rf1 - offset rf1 < 0
      /\ wrap_u64 (file_size rf1 - offset rf1) = 2 ^ 64 - 1
      /\ snd (poll_read rf1 buf net)
         = [fetch_range (url rf) (file_size rf + 1) (Z.of_nat (capacity buf))]
  end.
Proof.
  intros Hs H0 H1 Hc Hc64. unfold start_seek. cbn.
  assert (Hw : wrap_u64 (file_size rf - (file_size rf + 1)) = 2 ^ 64 - 1).
  { unfold wrap_u64. replace (file_size rf - (file_size rf + 1)) with (-1) by lia.
    reflexivity. }
  split; [reflexivity |]. split; [lia |]. split; [lia |]. split; [exact Hw |].
  unfold poll_read. cbn [state]. rewrite Hs. cbn [file_size offset].
  rewrite Hw.
  rewrite Z.min_r by lia.
  rewrite (proj2 (Z.eqb_neq _ _)) by lia.
  destruct (poll_fetch _ _ _ buf net) as [[p rf2] buf2]. reflexivity.
Qed.

Lemma C10_seek_past_eof_underflows_witness :
  let rf := mkRemoteFile "https://example.org/model.tb" 0 100 Idle in
  let buf := mkReadBuf 16 [] in
  state rf = Idle /\ 0 <= file_size rf /\ file_size rf + 1 < 2 ^ 64
  /\ (0 < capacity buf)%nat /\ Z.of_nat (capacity buf) < 2 ^ 64
  /\ match start_seek rf (Start (file_size rf + 1)) with
     | (r, rf1, _) => snd (poll_read rf1 buf NotReady) = [fetch_range (url rf) 101 16]
     end.
Proof.
  intros rf buf.
  split; [reflexivity |]. split; [simpl; lia |]. split; [simpl; lia |].
  split; [simpl; lia |]. split; [simpl; lia |].
  pose proof (C10_seek_past_eof_underflows rf buf NotReady eq_refl
                ltac:(simpl; lia) ltac:(simpl; lia) ltac:(simpl; lia) ltac:(simpl; lia)) as H.
  destruct (start_seek rf (Start (file_size rf + 1))) as [[r rf1] reqs].
  destruct H as [_ [_ [_ [_ H]]]]. exact H.
Defined.

(* ================================================================== *)
(** * Further properties of the code *)

(** ** The binary search *)

Lemma lookup_by_key_loop_by fuel v key left right :
  lookup_by_key_loop fuel v key left right
  = lookup_by_key_by_loop TensorMetadata.id fuel v key left right.
Proof.
  revert left right. induction fuel as [|fuel IH]; intros left right; [reflexivity |].
  simpl. destruct (left <=? right); [| reflexivity].
  destruct (nth_error v _); [| reflexivity].
  destruct (Z.compare _ _); rewrite ?IH; reflexivity.
Qed.

Lemma lookup_by_key_by_id (v : list TensorMetadata.t) key :
  lookup_by_key v key = lookup_by_key_by TensorMetadata.id v key.
Proof. destruct v; [reflexivity |]. apply lookup_by_key_loop_by. Qed.

Lemma lookup_by_key_by_loop_sound {A} (key_of : A -> Z) fuel v key left right a :
  lookup_by_key_by_loop key_of fuel v key left right = Some a -> In a v /\ key_of a = key.
Proof.
  revert left right. induction fuel as [|fuel IH]; intros left right H; [discriminate |].
  simpl in H. destruct (left <=? right); [| discriminate].
  destruct (nth_error v (Z.to_nat ((left + right) / 2))) as [value|] eqn:Hn; [| discriminate].
  destruct (Z.compare (key_of value) key) eqn:Hc.
  - inversion H; subst. split; [eapply nth_error_In; eassumption |].
    apply Z.compare_eq. assumption.
  - eapply IH; eassumption.
  - destruct (_ =? 0); [discriminate | eapply IH; eassumption].
Qed.

Lemma lookup_by_key_by_sound {A} (key_of : A -> Z) v key a :
  lookup_by_key_by key_of v key = Some a -> In a v /\ key_of a = key.
Proof.
  unfold lookup_by_key_by. destruct v; [discriminate |].
  apply lookup_by_key_by_loop_sound.
Qed.

Lemma sorted_nth_lt {A} (key_of : A -> Z) (v : list A) i j a b :
  Sorted Z.lt (map key_of v) ->
  nth_error v i = Some a -> nth_error v j = Some b -> (i < j)%nat -> key_of a < key_of b.
Proof.
  intros Hs. apply (Sorted_StronglySorted Z.lt_trans) in Hs.
  revert i j. induction v as [|x v IH]; intros i j Ha Hb Hij; [destruct i; discriminate |].
  simpl in Hs. apply StronglySorted_inv in Hs as [Hs Hf].
  destruct i as [|i], j as [|j]; simpl in *; try lia.
  - inversion Ha; subst. rewrite Forall_forall in Hf. apply Hf.
    apply in_map. eapply nth_error_In; eassumption.
  - apply (IH Hs i j); auto. lia.
Qed.

Lemma sorted_nth_key_inj {A} (key_of : A -> Z) (v : list A) i j a b :
  Sorted Z.lt (map key_of v) ->
  nth_error v i = Some a -> nth_error v j = Some b -> key_of a = key_of b -> i = j.
Proof.
  intros Hs Ha Hb Hk.
  destruct (Nat.lt_trichotomy i j) as [H|[H|H]]; [| exact H |].
  - pose proof (sorted_nth_lt key_of v i j a b Hs Ha Hb H). lia.
  - pose proof (sorted_nth_lt key_of v j i b a Hs Hb Ha H). lia.
Qed.

Lemma mid_bounds (l r : Z) : l <= r -> l <= (l + r) / 2 <= r.
Proof.
  intros H. pose proof (Z.div_mod (l + r) 2 ltac:(lia)).
  pose proof (Z.mod_pos_bound (l + r) 2 ltac:(lia)). lia.
Qed.

Lemma lookup_by_key_by_loop_complete {A} (key_of : A -> Z) (v : list A) j a :
  Sorted Z.lt (map key_of v) -> nth_error v j = Some a ->
  forall fuel left right,
  0 <= left <= Z.of_nat j -> Z.of_nat j <= right -> right < Z.of_nat (List.length v) ->
  right - left + 2 <= Z.of_nat fuel ->
  lookup_by_key_by_loop key_of fuel v (key_of a) left right = Some a.
Proof.
  intros Hs Hj fuel. induction fuel as [|fuel IH]; intros left right Hl Hr Hlen Hf; [lia |].
  simpl. rewrite (proj2 (Z.leb_le _ _)) by lia.
  set (mid := (left + right) / 2).
  pose proof (mid_bounds left right ltac:(lia)) as Hm. fold mid in Hm.
  destruct (nth_error v (Z.to_nat mid)) as [m|] eqn:Hn.
  2:{ apply nth_error_None in Hn. lia. }
  destruct (Z.compare (key_of m) (key_of a)) eqn:Hc.
  - apply Z.compare_eq in Hc.
    pose proof (sorted_nth_key_inj key_of v _ _ _ _ Hs Hn Hj Hc) as E.
    rewrite E in Hn. congruence.
  - rewrite Z.compare_lt_iff in Hc.
    assert (mid < Z.of_nat j).
    { destruct (Z.lt_ge_cases mid (Z.of_nat j)) as [H|H]; [exact H | exfalso].
      destruct (Z.eq_dec mid (Z.of_nat j)) as [E|E].
      - rewrite E, Nat2Z.id in Hn. rewrite Hn in Hj. inversion Hj; subst. lia.
      - assert (Hjm : (j < Z.to_nat mid)%nat) by lia.
        pose proof (sorted_nth_lt key_of v j (Z.to_nat mid) a m Hs Hj Hn Hjm). lia. }
    apply IH; lia.
  - rewrite Z.compare_gt_iff in Hc.
    assert (Z.of_nat j < mid).
    { destruct (Z.lt_ge_cases (Z.of_nat j) mid) as [H|H]; [exact H | exfalso].
      destruct (Z.eq_dec mid (Z.of_nat j)) as [E|E].
      - rewrite E, Nat2Z.id in Hn. rewrite Hn in Hj. inversion Hj; subst. lia.
      - assert (Hjm : (Z.to_nat mid < j)%nat) by lia.
        pose proof (sorted_nth_lt key_of v (Z.to_nat mid) j m a Hs Hn Hj Hjm). lia. }
    rewrite (proj2 (Z.eqb_neq _ _)) by lia.
    apply IH; lia.
Qed.

Lemma lookup_by_key_by_complete {A} (key_of : A -> Z) (v : list A) j a :
  Sorted Z.lt (map key_of v) -> nth_error v j = Some a ->
  lookup_by_key_by key_of v (key_of a) = Some a.
Proof.
  intros Hs Hj. pose proof (nth_error_Some v j) as Hlt.
  assert (Hj' : (j < List.length v)%nat) by (apply Hlt; congruence).
  unfold lookup_by_key_by. destruct v as [|x v']; [simpl in Hj'; lia |].
  eapply lookup_by_key_by_loop_complete; try eassumption; lia.
Qed.

(** On a table sorted by key, the search finds exactly what a linear scan
    finds. *)
Lemma lookup_by_key_by_find {A} (key_of : A -> Z) (v : list A) key :
  Sorted Z.lt (map key_of v) ->
  lookup_by_key_by key_of v key = find (fun a => key_of a =? key) v.
Proof.
  intros Hs. destruct (find (fun a => key_of a =? key) v) as [a|] eqn:F.
  - apply find_some in F as [Hin Hk]. apply Z.eqb_eq in Hk. subst key.
    apply In_nth_error in Hin as [j Hj].
    eapply lookup_by_key_by_complete; eassumption.
  - destruct (lookup_by_key_by key_of v key) as [a|] eqn:L; [| reflexivity].
    apply lookup_by_key_by_sound in L as [Hin Hk].
    pose proof (find_none _ _ F a Hin) as Hf. simpl in Hf.
    apply Z.eqb_neq in Hf. contradiction.
Qed.

(** ** The trailer cache *)

Lemma get_metadata_root_cached decode tb root :
  metadata_root tb = Some root -> get_metadata_root decode tb = (Ok root, tb).
Proof. intros H. unfold get_metadata_root. rewrite H. reflexivity. Qed.

Lemma get_metadata_root_ok_cache decode tb root tb1 :
  get_metadata_root decode tb = (Ok root, tb1) -> metadata_root tb1 = Some root.
Proof.
  unfold get_metadata_root. destruct (metadata_root tb) as [r|] eqn:E.
  - intros H. inversion H; subst. assumption.
  - unfold bind, with_reader.
    destruct (get_metadata_size (reader tb)) as [[ms|e] s1]; [| discriminate].
    cbn [reader metadata_root].
    destruct (read_metadata 0 s1) as [[buf|e] s2]; [| discriminate].
    destruct (decode buf) as [r|]; [| discriminate].
    unfold set_metadata_root. cbn [metadata_root]. rewrite E. unfold ret.
    intros H. inversion H; subst. reflexivity.
Qed.

(** The cache of a [TensorBuffers] opened on any bytes is never filled: with
    [flatbuffers::root] rejecting the empty buffer that [get_metadata_root]
    reads into, every call of [get_metadata_root], however many came before,
    fails and leaves the cache empty. *)
Theorem get_metadata_root_never_caches decode bs n :
  decode [] = None ->
  let tb := Nat.iter n (fun tb => snd (get_metadata_root decode tb)) (open_bytes bs) in
  metadata_root tb = None
  /\ exists e tb1, get_metadata_root decode tb = (Err e, tb1) /\ metadata_root tb1 = None.
Proof.
  intros Hd tb. subst tb.
  assert (Hn : metadata_root
                 (Nat.iter n (fun tb => snd (get_metadata_root decode tb)) (open_bytes bs)) = None).
  { induction n as [|n IH]; [reflexivity |].
    destruct (get_metadata_root_uncached_fails decode _ Hd IH) as [e [tb1 [G R]]].
    change (metadata_root (snd (get_metadata_root decode
      (Nat.iter n (fun tb => snd (get_metadata_root decode tb)) (open_bytes bs)))) = None).
    rewrite G. exact R. }
  split; [exact Hn |]. exact (get_metadata_root_uncached_fails decode _ Hd Hn).
Qed.

Lemma get_metadata_root_never_caches_witness :
  (fun _ : list byte => @None TensorBuffersMetadata.t) [] = None
  /\ metadata_root (Nat.iter 3 (fun tb => snd (get_metadata_root (fun _ => None) tb))
                      (open_bytes (written_file small_encode three_tensors))) = None.
Proof.
  split; [reflexivity |].
  exact (proj1 (get_metadata_root_never_caches (fun _ => None)
                  (written_file small_encode three_tensors) 3 eq_refl)).
Defined.

(** ** Resolving tensor metadata *)

(** Whatever the order of the table, [get_tensor_metadata] never returns an
    entry with another id: a returned entry is in the cached trailer's
    table and carries the requested id. *)
Theorem get_tensor_metadata_sound decode tensor_id tb md tb1 :
  get_tensor_metadata decode tensor_id tb = (Ok md, tb1) ->
  TensorMetadata.id md = tensor_id
  /\ exists root tbl, metadata_root tb1 = Some root
     /\ TensorBuffersMetadata.tensors root = Some tbl /\ In md tbl.
Proof.
  unfold get_tensor_metadata, bind.
  destruct (get_metadata_root decode tb) as [[root|e] tb'] eqn:G; [| discriminate].
  apply get_metadata_root_ok_cache in G.
  destruct (TensorBuffersMetadata.tensors root) as [tbl|] eqn:T; [| discriminate].
  destruct (lookup_by_key tbl tensor_id) as [m|] eqn:L; [| discriminate].
  unfold ret. intros H. inversion H; subst.
  rewrite lookup_by_key_by_id in L. apply lookup_by_key_by_sound in L as [Hin Hk].
  split; [exact Hk |]. exists root, tbl. auto.
Qed.

Lemma get_tensor_metadata_sound_witness :
  let md := tensor_build_table (Tensor.new Float32 "1" f32_1_2_3 [3]) 4 in
  let tb := mkTensorBuffers (Some (tensor_buffers_build_table [md] [])) (mkSource [] 0 []) in
  get_tensor_metadata (fun _ => None) (hash_key "1") tb = (Ok md, tb)
  /\ TensorMetadata.id md = hash_key "1".
Proof.
  intros md tb.
  assert (H : get_tensor_metadata (fun _ => None) (hash_key "1") tb = (Ok md, tb))
    by (vm_compute; reflexivity).
  split; [exact H |].
  exact (proj1 (get_tensor_metadata_sound (fun _ => None) (hash_key "1") tb md tb H)).
Defined.

(** With the trailer cached: no tensors table gives "No tensors found"; on a
    table sorted by id, [get_tensor_metadata] returns the entry with the
    requested id, or "Tensor ID not found" when there is none; the reader
    is not used. *)
Theorem get_tensor_metadata_cached decode tensor_id tb root :
  metadata_root tb = Some root ->
  (TensorBuffersMetadata.tensors root = None ->
     get_tensor_metadata decode tensor_id tb = (Err NoTensors, tb))
  /\ (forall tbl, TensorBuffersMetadata.tensors root = Some tbl ->
        Sorted Z.lt (map TensorMetadata.id tbl) ->
        get_tensor_metadata decode tensor_id tb
        = (match find (fun m => TensorMetadata.id m =? tensor_id) tbl with
           | Some m => Ok m
           | None => Err TensorIdNotFound
           end, tb)).
Proof.
  intros Hc. unfold get_tensor_metadata.
  rewrite (bind_ok _ _ _ _ _ (get_metadata_root_cached decode tb root Hc)).
  split.
  - intros T. rewrite T. reflexivity.
  - intros tbl T Hs. rewrite T, lookup_by_key_by_id, lookup_by_key_by_find by exact Hs.
    destruct (find _ tbl); reflexivity.
Qed.

Lemma get_tensor_metadata_cached_witness :
  let md := tensor_build_table (Tensor.new Float32 "1" f32_1_2_3 [3]) 4 in
  let root := tensor_buffers_build_table [md] [] in
  let tb := mkTensorBuffers (Some root) (mkSource [] 0 []) in
  metadata_root tb = Some root /\ Sorted Z.lt (map TensorMetadata.id [md])
  /\ get_tensor_metadata (fun _ => None) 5 tb = (Err TensorIdNotFound, tb).
Proof.
  intros md root tb.
  assert (Hs : Sorted Z.lt (map TensorMetadata.id [md])) by (repeat constructor).
  split; [reflexivity |]. split; [exact Hs |].
  rewrite (proj2 (get_tensor_metadata_cached (fun _ => None) 5 tb root eq_refl) [md]
             eq_refl Hs).
  vm_compute. reflexivity.
Defined.

(** ** Operations *)

Lemma with_metadata_build_table (op : TensorOperation.t) :
  TensorOperation.with_metadata (TensorOperation.build_table op) = op.
Proof. destruct op; reflexivity. Qed.

Lemma map_id_build_table (ops : list TensorOperation.t) :
  map OperationMetadata.id (map TensorOperation.build_table ops) = map TensorOperation.id ops.
Proof. rewrite map_map. reflexivity. Qed.

(** With a trailer assembled by [TensorBuffers::build_table] from operations
    made by [TensorOperation::build_table], sorted by id, in the cache:
    looking up the id of any of them returns that operation unchanged, and
    an id none of them has gives "Operation ID not found".  With the trailer
    [write_tensors] builds (no operations table) in the cache, every lookup
    fails with "No operations found".  The reader is never used. *)
Theorem get_tensor_operation_by_id_cached decode tb :
  (forall tms ops,
     metadata_root tb
       = Some (tensor_buffers_build_table tms (map TensorOperation.build_table ops)) ->
     Sorted Z.lt (map TensorOperation.id ops) ->
     (forall op, In op ops ->
        get_tensor_operation_by_id decode (TensorOperation.id op) tb = (inl op, tb))
     /\ (forall oid, ~ In oid (map TensorOperation.id ops) ->
        get_tensor_operation_by_id decode oid tb = (inr OperationIdNotFound, tb)))
  /\ (forall ts, metadata_root tb = Some (build_metadata ts) ->
        forall oid, get_tensor_operation_by_id decode oid tb = (inr NoOperations, tb)).
Proof.
  split.
  - intros tms ops Hc Hs.
    assert (Hs' : Sorted Z.lt (map OperationMetadata.id (map TensorOperation.build_table ops)))
      by (rewrite map_id_build_table; exact Hs).
    unfold get_tensor_operation_by_id. rewrite (get_metadata_root_cached decode tb _ Hc).
    cbn [tensor_buffers_build_table TensorBuffersMetadata.operations].
    split.
    + intros op Hin. apply In_nth_error in Hin as [j Hj].
      assert (Hj' : nth_error (map TensorOperation.build_table ops) j
                    = Some (TensorOperation.build_table op))
        by (rewrite nth_error_map, Hj; reflexivity).
      pose proof (lookup_by_key_by_complete OperationMetadata.id _ j _ Hs' Hj') as L.
      cbn [TensorOperation.build_table OperationMetadata.id] in L. rewrite L.
      rewrite with_metadata_build_table. reflexivity.
    + intros oid Hn.
      destruct (lookup_by_key_by OperationMetadata.id (map TensorOperation.build_table ops) oid)
        as [m|] eqn:L; [| reflexivity].
      apply lookup_by_key_by_sound in L as [Hin Hk].
      exfalso. apply Hn. rewrite <- map_id_build_table, <- Hk. apply in_map. exact Hin.
  - intros ts Hc oid. unfold get_tensor_operation_by_id.
    rewrite (get_metadata_root_cached decode tb _ Hc). reflexivity.
Qed.

Lemma get_tensor_operation_by_id_cached_witness :
  let op1 := TensorOperation.new 1 0 [] (hash_key "1") in
  let op2 := TensorOperation.new 2 1 [1] (hash_key "2") in
  let tb := mkTensorBuffers
              (Some (tensor_buffers_build_table [] (map TensorOperation.build_table [op1; op2])))
              (mkSource [] 0 []) in
  Sorted Z.lt (map TensorOperation.id [op1; op2])
  /\ get_tensor_operation_by_id (fun _ => None) 2 tb = (inl op2, tb).
Proof.
  intros op1 op2 tb.
  assert (Hs : Sorted Z.lt (map TensorOperation.id [op1; op2])).
  { simpl. repeat constructor. }
  split; [exact Hs |].
  exact (proj1 (proj1 (get_tensor_operation_by_id_cached (fun _ => None) tb) [] [op1; op2]
                  eq_refl Hs) op2 ltac:(simpl; auto)).
Defined.

(** ** Reading back what the writer wrote *)

Lemma length_concat_data (l : list Tensor.t) :
  Z.of_nat (List.length (List.concat (map Tensor.data l)))
  = fold_right Z.add 0 (map (fun t => Z.of_nat (List.length (Tensor.data t))) l).
Proof.
  induction l as [|t l IH]; [reflexivity |].
  simpl. rewrite length_app, Nat2Z.inj_add, IH. reflexivity.
Qed.

Lemma map_id_table (ts : list Tensor.t) (cur : Z) :
  map TensorMetadata.id (map (fun '(t, o) => tensor_metadata_of t o) (combine ts (data_offsets cur ts)))
  = map Tensor.id ts.
Proof.
  revert cur. induction ts as [|t ts IH]; intros cur; [reflexivity |].
  simpl. f_equal. apply IH.
Qed.

(** Tensor [i] of a written file whose data section stays below 2^32 bytes:
    its table entry, and where its bytes lie in the file. *)
Lemma written_block encode (ts : list Tensor.t) (i : nat) (t : Tensor.t) :
  nth_error ts i = Some t ->
  4 + Z.of_nat (List.length (List.concat (map Tensor.data ts))) < 2 ^ 32 ->
  exists pre : list byte,
    let off := 4 + Z.of_nat (List.length pre) in
    nth_error (map (fun '(t, o) => tensor_metadata_of t o) (combine ts (data_offsets 4 ts))) i
      = Some (tensor_metadata_of t off)
    /\ TensorMetadata.data_size (tensor_metadata_of t off) = Z.of_nat (List.length (Tensor.data t))
    /\ written_file encode ts = (MAGIC_BYTES ++ pre) ++ Tensor.data t
         ++ (List.concat (map Tensor.data (skipn (S i) ts)) ++ encode (build_metadata ts)
             ++ u32_to_le_bytes (wrap_u32 (Z.of_nat (List.length (encode (build_metadata ts)))))
             ++ MAGIC_BYTES)
    /\ Z.of_nat (List.length pre) + Z.of_nat (List.length (Tensor.data t))
       <= Z.of_nat (List.length (List.concat (map Tensor.data ts))).
Proof.
  intros Hi Hb.
  destruct (nth_error_split ts i Hi) as [l1 [l2 [Hts Hl1]]].
  assert (Hf : firstn i ts = l1) by (rewrite Hts, <- Hl1; apply firstn_length_app).
  assert (Hs : skipn (S i) ts = l2).
  { rewrite Hts, <- Hl1. rewrite skipn_app, skipn_all2 by (simpl; lia).
    replace (S (List.length l1) - List.length l1)%nat with 1%nat by lia. reflexivity. }
  exists (List.concat (map Tensor.data l1)).
  set (pre := List.concat (map Tensor.data l1)).
  assert (Hcat : List.concat (map Tensor.data ts) = pre ++ Tensor.data t ++ List.concat (map Tensor.data l2))
    by (unfold pre; rewrite Hts, map_app, concat_app; reflexivity).
  assert (Hlen : Z.of_nat (List.length (List.concat (map Tensor.data ts)))
                 = Z.of_nat (List.length pre) + Z.of_nat (List.length (Tensor.data t))
                   + Z.of_nat (List.length (List.concat (map Tensor.data l2))))
    by (rewrite Hcat, !length_app; lia).
  split; [| split; [| split]].
  - rewrite nth_error_map, (nth_error_combine _ _ _ _ _ Hi (data_offsets_nth ts 4 i t Hi)).
    cbn [option_map]. f_equal. f_equal.
    rewrite Hf, <- length_concat_data. fold pre. unfold wrap_u32. apply Z.mod_small. lia.
  - cbn [tensor_metadata_of TensorMetadata.data_size]. unfold wrap_u32.
    apply Z.mod_small. lia.
  - rewrite written_file_layout, Hcat, Hs. rewrite <- !app_assoc. reflexivity.
  - lia.
Qed.

(** The reader's own protocol on a written file (data section and trailer
    below 2^32 bytes): [get_metadata_size] returns the trailer length,
    [read_metadata] with a buffer of that length returns the trailer, and
    [read_data_with_metadata] with tensor [i]'s table entry and a buffer of
    its [data_size] returns tensor [i]'s bytes. *)
Theorem reader_reads_written_file encode (ts : list Tensor.t) (i : nat) (t : Tensor.t) pos log :
  Z.of_nat (List.length (encode (build_metadata ts))) < 2 ^ 32 ->
  4 + Z.of_nat (List.length (List.concat (map Tensor.data ts))) < 2 ^ 32 ->
  nth_error ts i = Some t ->
  let file := mkSource (written_file encode ts) pos log in
  fst (get_metadata_size file) = Ok (Z.of_nat (List.length (encode (build_metadata ts))))
  /\ fst (read_metadata (List.length (encode (build_metadata ts))) file)
     = Ok (encode (build_metadata ts))
  /\ exists tbl md,
       TensorBuffersMetadata.tensors (build_metadata ts) = Some tbl
       /\ nth_error tbl i = Some md
       /\ fst (read_data_with_metadata md (Z.to_nat (TensorMetadata.data_size md)) file)
          = Ok (Tensor.data t).
Proof.
  intros Hfb Hdata Hi file.
  set (fb := encode (build_metadata ts)) in *.
  set (le := u32_to_le_bytes (wrap_u32 (Z.of_nat (List.length fb)))).
  assert (Hms : u32_from_le_bytes le = Z.of_nat (List.length fb)).
  { unfold le, wrap_u32. rewrite Z.mod_small by lia. apply u32_from_to_le_bytes. lia. }
  set (data := List.concat (map Tensor.data ts)) in *.
  assert (Hw : written_file encode ts = (MAGIC_BYTES ++ data ++ fb) ++ le ++ MAGIC_BYTES)
    by (rewrite written_file_layout; reflexivity).
  split; [| split].
  - unfold file. rewrite Hw, get_metadata_size_layout by reflexivity.
    cbn [fst]. rewrite Hms. reflexivity.
  - unfold file. rewrite Hw, read_metadata_layout by reflexivity.
    rewrite firstn_4_magic, bytes_eqb_refl. simpl negb. cbv iota. rewrite Hms.
    assert (HL : Z.of_nat (List.length ((MAGIC_BYTES ++ data ++ fb) ++ le ++ MAGIC_BYTES))
                 = Z.of_nat (List.length (MAGIC_BYTES ++ data)) + Z.of_nat (List.length fb) + 8)
      by (unfold le; rewrite !length_app, length_u32_to_le_bytes;
          change (List.length MAGIC_BYTES) with 4%nat; lia).
    rewrite HL.
    rewrite (proj2 (Z.ltb_ge _ _)) by lia.
    rewrite (proj2 (Z.ltb_ge _ _)) by lia.
    rewrite (proj2 (Z.leb_le _ _)) by lia.
    f_equal.
    replace (Z.to_nat (Z.of_nat (List.length (MAGIC_BYTES ++ data)) + Z.of_nat (List.length fb)
                       + 8 - (Z.of_nat (List.length fb) + 8)))
      with (List.length (MAGIC_BYTES ++ data)) by lia.
    rewrite <- !app_assoc, (app_assoc MAGIC_BYTES data).
    rewrite skipn_length_app. apply firstn_length_app.
  - destruct (written_block encode ts i t Hi Hdata) as [pre [Hnth [Hsize [Hlay _]]]].
    rewrite build_metadata_tensors.
    eexists; eexists. split; [reflexivity |]. split; [exact Hnth |].
    unfold file. rewrite Hlay.
    set (md := tensor_metadata_of t (4 + Z.of_nat (List.length pre))) in *.
    set (rest := List.concat (map Tensor.data (skipn (S i) ts)) ++ fb ++ le ++ MAGIC_BYTES).
    assert (Hoff : TensorMetadata.data_offset md = Z.of_nat (List.length (MAGIC_BYTES ++ pre)))
      by (unfold md; cbn [tensor_metadata_of TensorMetadata.data_offset];
          rewrite length_app; change (List.length MAGIC_BYTES) with 4%nat; lia).
    rewrite read_data_with_metadata_ok.
    + cbn [fst]. rewrite Hsize, Hoff, !Nat2Z.id, skipn_length_app.
      f_equal. apply firstn_length_app.
    + rewrite Hoff. lia.
    + rewrite Hsize. lia.
    + rewrite Hoff, Hsize, !length_app. lia.
Qed.

Lemma reader_reads_written_file_witness :
  Z.of_nat (List.length (small_encode (build_metadata three_tensors))) < 2 ^ 32
  /\ 4 + Z.of_nat (List.length (List.concat (map Tensor.data three_tensors))) < 2 ^ 32
  /\ nth_error three_tensors 2 = Some (Tensor.new Float32 "3" f32_1_2_3 [3])
  /\ fst (read_metadata 3%nat (mkSource (written_file small_encode three_tensors) 0 []))
     = Ok [x01; x02; x03].
Proof.
  split; [simpl; lia |]. split; [simpl; lia |]. split; [reflexivity |].
  exact (proj1 (proj2 (reader_reads_written_file small_encode three_tensors 2
                          (Tensor.new Float32 "3" f32_1_2_3 [3]) 0 []
                          ltac:(simpl; lia) ltac:(simpl; lia) eq_refl))).
Defined.

(** The body of [get_tensor_data_by_id] past [get_metadata_root]: with the
    trailer [write_tensors] builds in the cache (a state [TensorBuffers::open]
    never reaches, see [get_metadata_root_never_caches]), on the written file
    with ids in increasing order and a data section below 2^32 bytes, for a
    tensor whose bytes [cast_slice] accepts: [get_tensor_data_by_id] with the
    stored kind and the tensor's id returns the tensor, its bytes as written
    and its shape as [u32]s; when the id is [hash_key] of the name, as
    [Tensor::new] makes it, [get_tensor_data_by_name] returns the same. *)
Theorem get_tensor_data_cached_written decode encode (ts : list Tensor.t) (i : nat)
  (t : Tensor.t) pos log :
  Sorted Z.lt (map Tensor.id ts) ->
  4 + Z.of_nat (List.length (List.concat (map Tensor.data ts))) < 2 ^ 32 ->
  nth_error ts i = Some t ->
  cast_slice_panics (Tensor.data_type t) (Tensor.data t) = false ->
  let tb := mkTensorBuffers (Some (build_metadata ts))
                            (mkSource (written_file encode ts) pos log) in
  let expected := {| Tensor.id := Tensor.id t; Tensor.name := Tensor.name t;
                     Tensor.data := Tensor.data t; Tensor.data_type := Tensor.data_type t;
                     Tensor.shape := map wrap_u32 (Tensor.shape t) |} in
  fst (get_tensor_data_by_id decode (Tensor.data_type t) (Tensor.id t) tb) = Ok expected
  /\ (Tensor.id t = hash_key (Tensor.name t) ->
      fst (get_tensor_data_by_name decode (Tensor.data_type t) (Tensor.name t) tb) = Ok expected).
Proof.
  intros Hs Hdata Hi Hcast tb expected.
  assert (Hmul : Z.of_nat (List.length (Tensor.data t)) mod size_of (Tensor.data_type t) = 0).
  { unfold cast_slice_panics in Hcast. apply orb_false_iff in Hcast as [_ Hm].
    apply negb_false_iff, Z.eqb_eq in Hm. exact Hm. }
  destruct (written_block encode ts i t Hi Hdata) as [pre [Hnth [Hsize [Hlay Hpre]]]].
  set (md := tensor_metadata_of t (4 + Z.of_nat (List.length pre))) in *.
  set (tbl := map (fun '(t, o) => tensor_metadata_of t o) (combine ts (data_offsets 4 ts))) in *.
  assert (Hmd : get_tensor_metadata decode (Tensor.id t) tb = (Ok md, tb)).
  { unfold get_tensor_metadata.
    rewrite (bind_ok _ _ _ _ _ (get_metadata_root_cached decode tb _ eq_refl)).
    rewrite build_metadata_tensors. fold tbl.
    assert (Hs' : Sorted Z.lt (map TensorMetadata.id tbl)) by (unfold tbl; rewrite map_id_table; exact Hs).
    rewrite lookup_by_key_by_id.
    pose proof (lookup_by_key_by_complete TensorMetadata.id tbl i md Hs' Hnth) as L.
    unfold md in L at 1. cbn [tensor_metadata_of TensorMetadata.id] in L.
    rewrite L. reflexivity. }
  assert (Hid : exists tb1,
                get_tensor_data_by_id decode (Tensor.data_type t) (Tensor.id t) tb
                = (Ok expected, tb1)).
  { eexists. unfold get_tensor_data_by_id. rewrite (bind_ok _ _ _ _ _ Hmd).
    cbv beta.
    assert (Hdt : TensorMetadata.data_type md = Tensor.data_type t) by reflexivity.
    assert (Hoff : TensorMetadata.data_offset md = 4 + Z.of_nat (List.length pre)) by reflexivity.
    rewrite Hdt, Hoff, Hsize.
    replace (negb (DataType_eqb (Tensor.data_type t) (Tensor.data_type t))) with false
      by (destruct (Tensor.data_type t); reflexivity).
    rewrite (proj2 (Z.leb_gt _ _)) by lia. cbv iota.
    assert (HL : Z.of_nat (List.length (written_file encode ts))
                 >= 4 + Z.of_nat (List.length pre) + Z.of_nat (List.length (Tensor.data t)))
      by (rewrite Hlay, !length_app; change (List.length MAGIC_BYTES) with 4%nat; lia).
    pose proof (read_data_with_metadata_ok md (written_file encode ts) pos log) as R.
    rewrite Hoff, Hsize in R.
    specialize (R ltac:(lia) ltac:(lia) ltac:(lia)).
    rewrite (with_reader_step _ _ tb _ _ R). cbn [metadata_root].
    rewrite Hmul. change (negb (0 =? 0)) with false. cbv iota.
    assert (Hbytes : firstn (Z.to_nat (Z.of_nat (List.length (Tensor.data t))))
                       (skipn (Z.to_nat (4 + Z.of_nat (List.length pre))) (written_file encode ts))
                     = Tensor.data t).
    { rewrite Hlay, Nat2Z.id.
      replace (Z.to_nat (4 + Z.of_nat (List.length pre))) with (List.length (MAGIC_BYTES ++ pre))
        by (rewrite length_app; change (List.length MAGIC_BYTES) with 4%nat; lia).
      rewrite skipn_length_app. apply firstn_length_app. }
    rewrite Hbytes. unfold lift, new_with_metadata_and_data. rewrite Hcast.
    reflexivity. }
  destruct Hid as [tb1 Hid].
  split.
  - rewrite Hid. reflexivity.
  - intros Hh. unfold get_tensor_data_by_name. rewrite <- Hh, Hid. reflexivity.
Qed.

Lemma get_tensor_data_cached_written_witness :
  let t := Tensor.new Float32 "1" f32_1_2_3 [3] in
  let tb := mkTensorBuffers (Some (build_metadata [t]))
                            (mkSource (written_file small_encode [t]) 0 []) in
  Sorted Z.lt (map Tensor.id [t])
  /\ 4 + Z.of_nat (List.length (List.concat (map Tensor.data [t]))) < 2 ^ 32
  /\ cast_slice_panics (Tensor.data_type t) (Tensor.data t) = false
  /\ fst (get_tensor_data_by_name (fun _ => None) Float32 "1" tb)
     = Ok {| Tensor.id := hash_key "1"; Tensor.name := "1"; Tensor.data := f32_1_2_3;
             Tensor.data_type := Float32; Tensor.shape := [3] |}.
Proof.
  intros t tb.
  assert (Hs : Sorted Z.lt (map Tensor.id [t])) by (repeat constructor).
  split; [exact Hs |]. split; [simpl; lia |]. split; [reflexivity |].
  exact (proj2 (get_tensor_data_cached_written (fun _ => None) small_encode [t] 0 t 0 []
                  Hs ltac:(simpl; lia) eq_refl eq_refl) eq_refl).
Defined.

Lemma map_wrap_u32_id (s : list Z) :
  Forall (fun d => 0 <= d) s ->
  map wrap_u32 s = s <-> Forall (fun d => d < 2 ^ 32) s.
Proof.
  induction 1 as [| d s Hd Hs IH]; simpl.
  - split; constructor.
  - unfold wrap_u32 at 1. split.
    + intros E. injection E as E1 E2. constructor.
      * rewrite <- E1. apply Z.mod_pos_bound. lia.
      * apply IH. exact E2.
    + intros F. inversion F as [| ? ? Hlt Hrest]; subst.
      rewrite Z.mod_small by lia. f_equal. apply IH. exact Hrest.
Qed.

(** [Tensor::build_table] then [Tensor::new_with_metadata_and_data] on the
    tensor's own bytes, for a tensor whose dimensions are non-negative:
    the tensor comes back unchanged exactly when it is read with its own
    element kind, every dimension fits in a [u32] (the table stores the
    dimensions as [dim as u32]) and [cast_slice] accepts the bytes for that
    kind (it panics otherwise, e.g. on empty data of a kind wider than a
    byte). *)
Theorem tensor_build_table_round_trip (k : DataType) (t : Tensor.t) (data_offset : Z) :
  Forall (fun d => 0 <= d) (Tensor.shape t) ->
  new_with_metadata_and_data k (tensor_build_table t data_offset) (Tensor.data t) = Ok t
  <-> k = Tensor.data_type t /\ Forall (fun d => d < 2 ^ 32) (Tensor.shape t)
      /\ cast_slice_panics k (Tensor.data t) = false.
Proof.
  intros Hnn. rewrite <- (map_wrap_u32_id _ Hnn).
  destruct t as [tid tname tdata tkind tshape].
  unfold new_with_metadata_and_data, tensor_build_table, tensor_metadata_of. cbn.
  destruct (cast_slice_panics k tdata).
  - split; [discriminate | intros [_ [_ F]]; discriminate].
  - split.
    + intros E. injection E as E1 E2. auto.
    + intros [-> [E _]]. rewrite E. reflexivity.
Qed.

Lemma tensor_build_table_round_trip_witness :
  Forall (fun d => 0 <= d) [3]
  /\ new_with_metadata_and_data Float32
       (tensor_build_table (Tensor.new Float32 "w" f32_1_2_3 [3]) 4) f32_1_2_3
     = Ok (Tensor.new Float32 "w" f32_1_2_3 [3])
  /\ new_with_metadata_and_data Float32
       (tensor_build_table (Tensor.new Float32 "e" [] [0]) 4) []
     <> Ok (Tensor.new Float32 "e" [] [0]).
Proof.
  assert (H : Forall (fun d => 0 <= d) [3]) by (repeat constructor; lia).
  assert (H0 : Forall (fun d => 0 <= d) [0]) by (repeat constructor; lia).
  split; [exact H |]. split.
  - apply (tensor_build_table_round_trip Float32 (Tensor.new Float32 "w" f32_1_2_3 [3]) 4 H).
    split; [reflexivity |]. split; [repeat constructor; lia | reflexivity].
  - intros E.
    apply (tensor_build_table_round_trip Float32 (Tensor.new Float32 "e" [] [0]) 4 H0) in E.
    destruct E as [_ [_ F]]. discriminate F.
Defined.

Lemma digit_value_digit_char (d : Z) : 0 <= d <= 9 -> digit_value (digit_char d) = Some d.
Proof.
  intros Hd. unfold digit_value, digit_char.
  rewrite nat_ascii_embedding by lia.
  rewrite (proj2 (Z.leb_le _ _)) by lia. rewrite (proj2 (Z.leb_le _ _)) by lia.
  cbn [andb]. f_equal. lia.
Qed.

Lemma digit_char_not_sign (d : Z) :
  0 <= d <= 9 -> Ascii.eqb (digit_char d) "+"%char = false /\ Ascii.eqb (digit_char d) "-"%char = false.
Proof.
  intros Hd. split; apply Ascii.eqb_neq; intros E;
    apply (f_equal nat_of_ascii) in E; unfold digit_char in E;
    rewrite nat_ascii_embedding in E by lia.
  - change (nat_of_ascii "+"%char) with 43%nat in E. lia.
  - change (nat_of_ascii "-"%char) with 45%nat in E. lia.
Qed.

Lemma digit_char_visible (d : Z) : 0 <= d <= 9 -> is_visible_ascii (digit_char d) = true.
Proof.
  intros Hd. unfold is_visible_ascii, digit_char. rewrite nat_ascii_embedding by lia.
  apply orb_true_intro. right. apply andb_true_intro.
  split; [apply Nat.leb_le | apply Nat.ltb_lt]; lia.
Qed.

Lemma fold_digits_ge (ds : list Z) (acc : Z) :
  Forall (fun d => 0 <= d <= 9) ds -> 0 <= acc ->
  acc <= fold_left (fun a d => a * 10 + d) ds acc.
Proof.
  intros H. revert acc. induction H as [| d ds Hd Hs IH]; intros acc Ha; simpl.
  - lia.
  - specialize (IH (acc * 10 + d) ltac:(lia)). lia.
Qed.

Lemma parse_u64_digits_value (ds : list Z) (acc : Z) :
  Forall (fun d => 0 <= d <= 9) ds -> 0 <= acc < 2 ^ 64 ->
  parse_u64_digits acc (string_of_digits ds)
  = let v := fold_left (fun a d => a * 10 + d) ds acc in
    if v <? 2 ^ 64 then Some v else None.
Proof.
  intros H. revert acc. induction H as [| d ds Hd Hs IH]; intros acc Ha;
    cbn [string_of_digits parse_u64_digits fold_left].
  - rewrite (proj2 (Z.ltb_lt _ _)) by lia. reflexivity.
  - rewrite digit_value_digit_char by exact Hd.
    pose proof (fold_digits_ge ds (acc * 10 + d) Hs ltac:(lia)) as G.
    destruct (2 ^ 64 <=? acc * 10) eqn:E1.
    + apply Z.leb_le in E1. rewrite (proj2 (Z.ltb_ge _ _)) by lia. reflexivity.
    + destruct (2 ^ 64 <=? acc * 10 + d) eqn:E2.
      * apply Z.leb_le in E2. rewrite (proj2 (Z.ltb_ge _ _)) by lia. reflexivity.
      * apply Z.leb_gt in E1, E2. apply IH. lia.
Qed.

Lemma header_to_str_digits (ds : list Z) :
  Forall (fun d => 0 <= d <= 9) ds -> header_to_str (string_of_digits ds) = Some (string_of_digits ds).
Proof.
  intros H. unfold header_to_str.
  assert (F : forallb is_visible_ascii (list_ascii_of_string (string_of_digits ds)) = true).
  { induction H as [| d ds Hd Hs IH]; [reflexivity |].
    cbn [string_of_digits list_ascii_of_string forallb].
    rewrite digit_char_visible by exact Hd. exact IH. }
  rewrite F. reflexivity.
Qed.

(** [RemoteFile::open] after a successful HEAD reply whose [Content-Length]
    is a non-empty run of decimal digits, with or without one leading [+]:
    the file opens at offset 0, idle, with the size the digits denote when
    that fits in a [u64]; a larger value is refused with the invalid
    content length error (never wrapped). *)
Theorem remote_file_open_content_length (url : string) (ds : list Z) (plus : bool) :
  ds <> [] -> Forall (fun d => 0 <= d <= 9) ds ->
  let header := if plus then String "+"%char (string_of_digits ds) else string_of_digits ds in
  RemoteFile_open url (Some (mkHeadResponse true (Some header)))
  = if digits_value ds <? 2 ^ 64 then IoOk (mkRemoteFile url 0 (digits_value ds) Idle)
    else IoErr InvalidContentLength.
Proof.
  intros Hne H header.
  assert (Hhdr : header_to_str header = Some header).
  { unfold header. destruct plus; [| apply header_to_str_digits; exact H].
    unfold header_to_str. cbn [list_ascii_of_string forallb].
    pose proof (header_to_str_digits ds H) as E. unfold header_to_str in E.
    destruct (forallb is_visible_ascii (list_ascii_of_string (string_of_digits ds))); [| discriminate].
    reflexivity. }
  assert (Hparse : parse_u64 header
                   = if digits_value ds <? 2 ^ 64 then Some (digits_value ds) else None).
  { unfold digits_value. rewrite <- parse_u64_digits_value by (assumption || lia).
    destruct ds as [| d ds']; [contradiction |].
    inversion H as [| ? ? Hd Hs]; subst.
    destruct (digit_char_not_sign d Hd) as [Np Nm].
    unfold header. destruct plus.
    - reflexivity.
    - cbn [string_of_digits parse_u64]. rewrite Np, Nm.
      destruct (string_of_digits ds'); reflexivity. }
  unfold RemoteFile_open, fetch_file_size. cbn [status_success content_length].
  rewrite Hhdr, Hparse. destruct (digits_value ds <? 2 ^ 64); reflexivity.
Qed.

Lemma remote_file_open_content_length_witness :
  [1; 8; 4; 4; 6; 7; 4; 4; 0; 7; 3; 7; 0; 9; 5; 5; 1; 6; 1; 6] <> []
  /\ Forall (fun d => 0 <= d <= 9) [1; 8; 4; 4; 6; 7; 4; 4; 0; 7; 3; 7; 0; 9; 5; 5; 1; 6; 1; 6]
  /\ RemoteFile_open "https://h/f"
       (Some (mkHeadResponse true
                (Some (String "+"%char
                         (string_of_digits [1; 8; 4; 4; 6; 7; 4; 4; 0; 7; 3; 7; 0; 9; 5; 5; 1; 6; 1; 6])))))
     = IoErr InvalidContentLength.
Proof.
  assert (Hne : [1; 8; 4; 4; 6; 7; 4; 4; 0; 7; 3; 7; 0; 9; 5; 5; 1; 6; 1; 6] <> []) by discriminate.
  assert (H : Forall (fun d => 0 <= d <= 9) [1; 8; 4; 4; 6; 7; 4; 4; 0; 7; 3; 7; 0; 9; 5; 5; 1; 6; 1; 6])
    by (repeat constructor; lia).
  split; [exact Hne |]. split; [exact H |].
  exact (remote_file_open_content_length "https://h/f" _ true Hne H).
Defined.

Lemma substring_0_length (s : string) : substring 0 (String.length s) s = s.
Proof. induction s as [| c s IH]; simpl; [reflexivity | rewrite IH; reflexivity]. Qed.

Lemma prefix_append (s t : string) : String.prefix s (s ++ t) = true.
Proof.
  induction s as [| c s IH]; simpl.
  - destruct t; reflexivity.
  - destruct (ascii_dec c c) as [_ | N]; [exact IH | congruence].
Qed.

(** [TensorBuffersFile::open] dispatches on the URL scheme: a [file://] URL
    opens, as a local file, exactly the path that follows the scheme (its
    open error passed through); an [https://] URL opens a [RemoteFile] for the
    whole URL without touching the file system; an [http://] URL (and any
    other scheme) is refused as unsupported without any request. *)
Theorem tensor_buffers_file_open_dispatch file_open head (p r : string) :
  TensorBuffersFile_open file_open head (String.append "file://" p)
  = match file_open p with IoOk f => IoOk (Local f) | IoErr e => IoErr e end
  /\ (forall file_open',
        TensorBuffersFile_open file_open' head (String.append "https://" r)
        = match RemoteFile_open (String.append "https://" r) (head (String.append "https://" r)) with
          | IoOk rf => IoOk (Remote rf) | IoErr e => IoErr e end)
  /\ (forall file_open' head',
        TensorBuffersFile_open file_open' head' (String.append "http://" r) = IoErr UnsupportedScheme).
Proof.
  split; [| split].
  - unfold TensorBuffersFile_open. rewrite prefix_append.
    replace (String.length (String.append "file://" p) - 7)%nat with (String.length p)
      by (cbn [String.length String.append]; lia).
    cbn [substring String.append]. rewrite substring_0_length. reflexivity.
  - intros fo. unfold TensorBuffersFile_open.
    rewrite (prefix_append "https://" r). reflexivity.
  - intros fo hd. reflexivity.
Qed.

Lemma poll_fetch_frame rf fo fs buf net :
  match poll_fetch rf fo fs buf net with
  | (p, rf', buf') => poll_frame rf rf' buf buf' net p
  end.
Proof.
  unfold poll_fetch, poll_frame.
  destruct net as [| [bytes | e]].
  - split; [reflexivity | split; [reflexivity | split; [reflexivity |]]].
    split; [exists []; rewrite app_nil_r; reflexivity |].
    split; [auto |]. split; [discriminate | intros e E; discriminate E].
  - destruct (remaining buf <? Z.of_nat (List.length bytes)) eqn:E.
    + split; [reflexivity | split; [reflexivity | split; [reflexivity |]]].
      split; [exists []; rewrite app_nil_r; reflexivity |].
      split; [auto |]. split; [| intros e' E'; discriminate E'].
      intros _. split; [reflexivity |]. left. exists bytes. apply Z.ltb_lt in E. auto.
    + apply Z.ltb_ge in E. unfold remaining in E. cbn [url file_size capacity filled].
      split; [reflexivity | split; [reflexivity | split; [reflexivity |]]].
      split; [exists bytes; reflexivity |].
      split; [intros _; rewrite length_app; lia |].
      split; [discriminate | intros e' E'; discriminate E'].
  - split; [reflexivity | split; [reflexivity | split; [reflexivity |]]].
    split; [exists []; rewrite app_nil_r; reflexivity |].
    split; [auto |]. split; [discriminate |].
    intros _ _. exists fo, fs. reflexivity.
Qed.

(** Whatever the state and whatever the fetch yields, one [poll_read] call
    keeps the URL, the file size and the buffer's capacity, only appends to
    the filled part of the buffer and never fills it past its capacity; it
    panics, with the buffer untouched, only on a completed fetch whose body
    is longer than the room left in the buffer or when the state holds a
    future that already completed with an error; it issues at most one
    request; and when it returns an error, the next [poll_read] panics
    whatever the buffer and whatever the network. *)
Theorem poll_read_frame rf buf net :
  match poll_read rf buf net with
  | (p, rf', buf', reqs) =>
      poll_frame rf rf' buf buf' net p /\ (List.length reqs <= 1)%nat
      /\ (forall e, p = Ready (Err e) ->
          forall buf2 net2, poll_read rf' buf2 net2 = (Panic, rf', buf2, []))
  end.
Proof.
  assert (Next : forall rf' buf2 net2 fo fs, state rf' = FetchSpent fo fs ->
                 poll_read rf' buf2 net2 = (Panic, rf', buf2, [])).
  { intros rf' buf2 net2 fo fs Hs. unfold poll_read. rewrite Hs. reflexivity. }
  unfold poll_read at 1. destruct (state rf) as [| fo fs | fo fs] eqn:Hst.
  - destruct (_ =? 0).
    + unfold poll_frame.
      split; [| split; [simpl; lia | intros e E; discriminate E]].
      split; [reflexivity | split; [reflexivity | split; [reflexivity |]]].
      split; [exists []; rewrite app_nil_r; reflexivity |].
      split; [auto |]. split; [discriminate | intros e E; discriminate E].
    + match goal with |- context [poll_fetch ?r ?o ?z ?b ?n] =>
        pose proof (poll_fetch_frame r o z b n) as F;
        destruct (poll_fetch r o z b n) as [[p rf2] buf2] end.
      destruct F as [U [S [C [R [L [P E]]]]]].
      split; [| split; [simpl; lia |]].
      * split; [exact U | split; [exact S | split; [exact C | split; [exact R | split; [exact L |]]]]].
        split; [| exact E].
        intros Hp. destruct (P Hp) as [Hb [Hl | [o [z Hz]]]]; [split; [exact Hb | left; exact Hl] |].
        discriminate Hz.
      * intros e He buf3 net3. destruct (E e He) as [o [z Hz]]. exact (Next _ _ _ _ _ Hz).
  - pose proof (poll_fetch_frame rf fo fs buf net) as F.
    destruct (poll_fetch rf fo fs buf net) as [[p rf2] buf2].
    split; [exact F | split; [simpl; lia |]].
    intros e He buf3 net3. destruct F as [_ [_ [_ [_ [_ [_ E]]]]]].
    destruct (E e He) as [o [z Hz]]. exact (Next _ _ _ _ _ Hz).
  - unfold poll_frame.
    split; [| split; [simpl; lia | intros e E; discriminate E]].
    split; [reflexivity | split; [reflexivity | split; [reflexivity |]]].
    split; [exists []; rewrite app_nil_r; reflexivity |].
    split; [auto |]. split; [| intros e E; discriminate E].
    intros _. split; [reflexivity |]. right. exists fo, fs. exact Hst.
Qed.

Lemma sink_output_chunked_ok (c : nat) (ops : list SinkOp) :
  (0 < c)%nat ->
  sink_output_chunked c ops = (fst (sink_output_chunked c ops), Ok tt).
Proof.
  intros Hc. destruct c as [|c']; [lia |].
  induction ops as [|[bs|bs|] ops IH]; [reflexivity | | | exact IH];
    cbn [sink_output_chunked]; [destruct bs |]; rewrite IH; reflexivity.
Qed.

Lemma sink_output_chunked_app (c : nat) (a b : list SinkOp) :
  (0 < c)%nat ->
  fst (sink_output_chunked c (a ++ b))
  = fst (sink_output_chunked c a) ++ fst (sink_output_chunked c b).
Proof.
  intros Hc. destruct c as [|c']; [lia |].
  induction a as [|[bs|bs|] a IH]; [reflexivity | | | exact IH];
    cbn [app sink_output_chunked]; [destruct bs |];
    rewrite (sink_output_chunked_ok (S c') (a ++ b)) by lia;
    rewrite (sink_output_chunked_ok (S c') a) by lia;
    cbn [fst]; rewrite <- ?app_assoc; cbn [fst] in IH; rewrite IH; reflexivity.
Qed.

Lemma sink_output_chunked_data (c : nat) (ts : list Tensor.t) :
  (0 < c)%nat ->
  fst (sink_output_chunked c (map (fun t => WriteAll (Tensor.data t)) ts))
  = List.concat (map Tensor.data ts).
Proof.
  intros Hc. destruct c as [|c']; [lia |].
  induction ts as [|t ts IH]; [reflexivity |].
  cbn [map List.concat sink_output_chunked].
  rewrite (sink_output_chunked_ok (S c')) by lia.
  destruct (Tensor.data t); cbn [fst]; rewrite IH; reflexivity.
Qed.

(** [write_tensors] sends the metadata size and the trailing magic with a
    single [write] each, whose count it ignores: into a sink that takes at
    most [c >= 1] bytes per [write] call, the calls succeed and the file
    ends with only the first [c] bytes of each (the magic, the data and the
    trailer, sent with [write_all], are complete); with [c >= 4] the file is
    the full one.  A sink that takes no byte ([c = 0]) makes the first
    [write_all], of the leading magic, fail with [WriteZero]: nothing is
    written. *)
Theorem write_tensors_partial_writes encode (ts : list Tensor.t) (c : nat) :
  let fb := encode (build_metadata ts) in
  ((0 < c)%nat ->
   sink_output_chunked c (write_tensors encode ts)
   = (MAGIC_BYTES ++ List.concat (map Tensor.data ts) ++ fb
      ++ firstn c (u32_to_le_bytes (wrap_u32 (Z.of_nat (List.length fb))))
      ++ firstn c MAGIC_BYTES, Ok tt))
  /\ ((4 <= c)%nat -> sink_output_chunked c (write_tensors encode ts) = (written_file encode ts, Ok tt))
  /\ sink_output_chunked 0 (write_tensors encode ts) = ([], Err WriteZero).
Proof.
  intros fb.
  assert (E : (0 < c)%nat ->
              sink_output_chunked c (write_tensors encode ts)
              = (MAGIC_BYTES ++ List.concat (map Tensor.data ts) ++ fb
                 ++ firstn c (u32_to_le_bytes (wrap_u32 (Z.of_nat (List.length fb))))
                 ++ firstn c MAGIC_BYTES, Ok tt)).
  { intros Hc. rewrite (sink_output_chunked_ok c _ Hc). f_equal.
    unfold write_tensors. rewrite !(sink_output_chunked_app c _ _ Hc), (sink_output_chunked_data c ts Hc).
    destruct c as [|c']; [lia |].
    cbn [sink_output_chunked MAGIC_BYTES fst]. fold fb.
    destruct fb; cbn [fst]; rewrite !app_nil_r; reflexivity. }
  split; [exact E |]. split.
  - intros Hc. rewrite (E ltac:(lia)), written_file_layout. fold fb. f_equal.
    rewrite !firstn_all2 by (try rewrite length_u32_to_le_bytes; simpl; lia).
    rewrite <- !app_assoc. reflexivity.
  - reflexivity.
Qed.

Lemma write_tensors_partial_writes_witness :
  (0 < 1)%nat /\ (4 <= 4)%nat
  /\ sink_output_chunked 4 (write_tensors small_encode three_tensors)
     = (written_file small_encode three_tensors, Ok tt).
Proof.
  split; [lia |]. split; [lia |].
  exact (proj1 (proj2 (write_tensors_partial_writes small_encode three_tensors 4)) ltac:(lia)).
Defined.

(** [read_metadata] reads as many bytes as the caller's buffer holds, not
    [metadata_size]: on a written file (trailer below 2^32 bytes), a buffer of
    [n >= metadata_size] bytes receives the trailer followed by the first
    [n - metadata_size] bytes of the size field and trailing magic, and a
    buffer longer than [metadata_size + 8] ends the read with
    [UnexpectedEof]. *)
Theorem read_metadata_oversized_buffer encode (ts : list Tensor.t) (n : nat) pos log :
  let fb := encode (build_metadata ts) in
  Z.of_nat (List.length fb) < 2 ^ 32 ->
  (List.length fb <= n)%nat ->
  fst (read_metadata n (mkSource (written_file encode ts) pos log))
  = if (n <=? List.length fb + 8)%nat
    then Ok (fb ++ firstn (n - List.length fb)
                          (u32_to_le_bytes (wrap_u32 (Z.of_nat (List.length fb))) ++ MAGIC_BYTES))
    else Err UnexpectedEof.
Proof.
  intros fb Hfb Hn.
  set (le := u32_to_le_bytes (wrap_u32 (Z.of_nat (List.length fb)))).
  assert (Hms : u32_from_le_bytes le = Z.of_nat (List.length fb)).
  { unfold le, wrap_u32. rewrite Z.mod_small by lia. apply u32_from_to_le_bytes. lia. }
  set (data := List.concat (map Tensor.data ts)).
  assert (Hw : written_file encode ts = (MAGIC_BYTES ++ data ++ fb) ++ le ++ MAGIC_BYTES)
    by (rewrite written_file_layout; reflexivity).
  rewrite Hw, read_metadata_layout by reflexivity.
  rewrite firstn_4_magic, bytes_eqb_refl. simpl negb. cbv iota. rewrite Hms.
  assert (HL : Z.of_nat (List.length ((MAGIC_BYTES ++ data ++ fb) ++ le ++ MAGIC_BYTES))
               = Z.of_nat (List.length (MAGIC_BYTES ++ data)) + Z.of_nat (List.length fb) + 8)
    by (unfold le; rewrite !length_app, length_u32_to_le_bytes;
        change (List.length MAGIC_BYTES) with 4%nat; lia).
  rewrite HL.
  rewrite (proj2 (Z.ltb_ge _ _)) by lia.
  rewrite (proj2 (Z.ltb_ge _ _)) by lia.
  replace (Z.of_nat (List.length (MAGIC_BYTES ++ data)) + Z.of_nat (List.length fb) + 8
           - (Z.of_nat (List.length fb) + 8))
    with (Z.of_nat (List.length (MAGIC_BYTES ++ data))) by lia.
  destruct (Nat.leb_spec n (List.length fb + 8)) as [Hle | Hgt].
  - rewrite (proj2 (Z.leb_le _ _)) by lia. f_equal.
    rewrite Nat2Z.id, <- !app_assoc, (app_assoc MAGIC_BYTES data), skipn_length_app.
    rewrite firstn_app, firstn_all2 by lia. reflexivity.
  - rewrite (proj2 (Z.leb_gt _ _)) by lia. reflexivity.
Qed.

Lemma read_metadata_oversized_buffer_witness :
  Z.of_nat (List.length (small_encode (build_metadata three_tensors))) < 2 ^ 32
  /\ (List.length (small_encode (build_metadata three_tensors)) <= 5)%nat
  /\ fst (read_metadata 5%nat (mkSource (written_file small_encode three_tensors) 0 []))
     = Ok [x01; x02; x03; x03; x00].
Proof.
  assert (H1 : Z.of_nat (List.length (small_encode (build_metadata three_tensors))) < 2 ^ 32)
    by (simpl; lia).
  assert (H2 : (List.length (small_encode (build_metadata three_tensors)) <= 5)%nat)
    by (simpl; lia).
  split; [exact H1 |]. split; [exact H2 |].
  rewrite (read_metadata_oversized_buffer small_encode three_tensors 5 0 [] H1 H2).
  reflexivity.
Defined.

Lemma get_metadata_size_short (bs : list byte) pos log :
  (List.length bs < 8)%nat ->
  get_metadata_size (mkSource bs pos log)
  = (Err InvalidInput, mkSource bs pos (log ++ [EvSeek (End (-8))])).
Proof.
  intros H. unfold get_metadata_size. apply bind_err.
  unfold seek, src_len. cbv beta iota zeta. cbn [src_bytes src_pos src_log].
  rewrite (proj2 (Z.ltb_lt _ _)) by lia. reflexivity.
Qed.

(** A source shorter than the 8 bytes of size field and trailing magic is
    rejected by both trailer readers: [get_metadata_size] fails with
    [InvalidInput] at its seek, before any read and with the position left
    as it was; [read_metadata] fails with [UnexpectedEof] when not even the
    leading magic is there, with [InvalidMagic] when it is wrong, and
    otherwise with the [InvalidInput] of [get_metadata_size]. *)
Theorem short_source_rejected (bs : list byte) pos log (n : nat) :
  (List.length bs < 8)%nat ->
  get_metadata_size (mkSource bs pos log)
  = (Err InvalidInput, mkSource bs pos (log ++ [EvSeek (End (-8))]))
  /\ fst (read_metadata n (mkSource bs pos log))
     = if (List.length bs <? 4)%nat then Err UnexpectedEof
       else if bytes_eqb (firstn 4 bs) MAGIC_BYTES then Err InvalidInput
       else Err InvalidMagic.
Proof.
  intros H. split; [exact (get_metadata_size_short bs pos log H) |].
  unfold read_metadata.
  erewrite bind_ok; [| apply seek_ok; [reflexivity | lia]].
  destruct (Nat.ltb_spec (List.length bs) 4) as [Hs | Hs].
  - erewrite bind_err; [reflexivity |].
    unfold read_exact, src_len. cbn [src_bytes src_pos src_log].
    rewrite (proj2 (Z.leb_gt _ _)) by lia. reflexivity.
  - rewrite (bind_ok _ _ _ _ _ (read_exact_ok 4 bs 0 _ ltac:(lia) ltac:(lia) ltac:(lia))).
    cbn [skipn Z.to_nat].
    destruct (bytes_eqb (firstn 4 bs) MAGIC_BYTES); cbn [negb].
    + erewrite bind_err; [reflexivity |]. apply get_metadata_size_short. exact H.
    + reflexivity.
Qed.

Lemma short_source_rejected_witness :
  (List.length (MAGIC_BYTES ++ [x00; x01]) < 8)%nat
  /\ fst (read_metadata 0%nat (mkSource (MAGIC_BYTES ++ [x00; x01]) 0 [])) = Err InvalidInput.
Proof.
  assert (H : (List.length (MAGIC_BYTES ++ [x00; x01]) < 8)%nat) by (vm_compute; lia).
  split; [exact H |].
  rewrite (proj2 (short_source_rejected (MAGIC_BYTES ++ [x00; x01]) 0 [] 0 H)).
  reflexivity.
Defined.

(** [read_data_with_metadata] with a buffer of [n] bytes, for a tensor at a
    non-negative offset: the cursor first moves to the offset; a buffer
    shorter than [data_size] then fails with [BufferInsufficient] and nothing
    is read; otherwise an empty buffer ([n = 0], [data_size <= 0]) succeeds
    at once without a read, even past the end of the source, and a non-empty
    one is filled from the offset, [n] bytes and not [data_size], or the
    read ends with [UnexpectedEof] when the source is shorter. *)
Theorem read_data_with_metadata_buffer (md : TensorMetadata.t) (n : nat) bs pos log :
  let off := TensorMetadata.data_offset md in
  0 <= off ->
  read_data_with_metadata md n (mkSource bs pos log)
  = if Z.of_nat n <? TensorMetadata.data_size md
    then (Err BufferInsufficient, mkSource bs off (log ++ [EvSeek (Start off)]))
    else if (n =? 0)%nat
    then (Ok [], mkSource bs off (log ++ [EvSeek (Start off)]))
    else if off + Z.of_nat n <=? Z.of_nat (List.length bs)
    then (Ok (firstn n (skipn (Z.to_nat off) bs)),
          mkSource bs (off + Z.of_nat n) ((log ++ [EvSeek (Start off)]) ++ [EvRead off n]))
    else (Err UnexpectedEof,
          mkSource bs (Z.max off (Z.of_nat (List.length bs)))
                   ((log ++ [EvSeek (Start off)]) ++ [EvRead off n])).
Proof.
  intros off Hoff. unfold read_data_with_metadata. fold off.
  erewrite bind_ok; [| apply seek_ok; [reflexivity | exact Hoff]].
  destruct (Z.of_nat n <? TensorMetadata.data_size md); [reflexivity |].
  destruct n as [|n']; [reflexivity |]. cbn [Nat.eqb].
  unfold read_exact, src_len. cbn [src_bytes src_pos src_log].
  destruct (off + Z.of_nat (S n') <=? Z.of_nat (List.length bs)); reflexivity.
Qed.

Lemma read_data_with_metadata_buffer_witness :
  let md := tensor_metadata_of (Tensor.new Float32 "1" f32_1_2_3 [3]) 4 in
  0 <= TensorMetadata.data_offset md
  /\ read_data_with_metadata md 8 (mkSource (written_file small_encode three_tensors) 0 [])
     = (Err BufferInsufficient,
        mkSource (written_file small_encode three_tensors) 4 [EvSeek (Start 4)]).
Proof.
  intros md. assert (H : 0 <= TensorMetadata.data_offset md) by (simpl; lia).
  split; [exact H |].
  rewrite (read_data_with_metadata_buffer md 8 (written_file small_encode three_tensors) 0 [] H).
  reflexivity.
Defined.

Lemma read_data_with_metadata_buffer_empty_witness :
  let md := tensor_metadata_of (Tensor.new Float32 "e" [] [0]) 1000 in
  0 <= TensorMetadata.data_offset md
  /\ read_data_with_metadata md 0 (mkSource (written_file small_encode three_tensors) 0 [])
     = (Ok [], mkSource (written_file small_encode three_tensors) 1000 [EvSeek (Start 1000)]).
Proof.
  intros md. assert (H : 0 <= TensorMetadata.data_offset md) by (simpl; lia).
  split; [exact H |].
  rewrite (read_data_with_metadata_buffer md 0 (written_file small_encode three_tensors) 0 [] H).
  reflexivity.
Defined.

(** Seeks relative to the cursor compose: when a first [SeekFrom::Current a]
    succeeds, following it with [SeekFrom::Current b] has the same outcome
    and issues the same (no) requests as the single seek
    [SeekFrom::Current (a + b)] (an [i64] displacement), and on success
    leaves the same file; when that seek fails, the two-step cursor stays at
    [offset + a] where the single seek leaves it at [offset]. *)
Theorem start_seek_current_compose (rf : RemoteFile) (a b : Z) :
  0 <= offset rf + a < 2 ^ 64 ->
  -2 ^ 63 <= a + b < 2 ^ 63 ->
  match start_seek rf (Current a) with
  | (r1, rf1, q1) =>
      r1 = Ok tt
      /\ match start_seek rf1 (Current b), start_seek rf (Current (a + b)) with
         | (r2, rf2, q2), (r, rf', q) =>
             r2 = r /\ q1 ++ q2 = q
             /\ (r = Ok tt -> rf2 = rf')
             /\ (r <> Ok tt -> offset rf2 = offset rf + a /\ offset rf' = offset rf)
         end
  end.
Proof.
  intros Ha _. unfold start_seek at 1, checked_add_signed at 1.
  rewrite (proj2 (Z.leb_le 0 (offset rf + a))) by lia.
  rewrite (proj2 (Z.ltb_lt (offset rf + a) (2 ^ 64))) by lia. cbn [andb].
  split; [reflexivity |].
  unfold start_seek, checked_add_signed. cbn [offset url file_size state].
  rewrite Z.add_assoc.
  destruct ((0 <=? offset rf + a + b) && (offset rf + a + b <? 2 ^ 64)).
  - split; [reflexivity |]. split; [reflexivity |].
    split; [intros _; reflexivity | intros N; contradiction N; reflexivity].
  - split; [reflexivity |]. split; [reflexivity |].
    split; [discriminate | intros _; split; reflexivity].
Qed.

Lemma start_seek_current_compose_witness :
  let rf := mkRemoteFile "https://h/f" 10 100 Idle in
  0 <= offset rf + 5 < 2 ^ 64 /\ -2 ^ 63 <= 5 + -20 < 2 ^ 63
  /\ fst (fst (start_seek rf (Current (5 + -20)))) = Err InvalidInput
  /\ offset (snd (fst (start_seek (snd (fst (start_seek rf (Current 5)))) (Current (-20))))) = 15.
Proof.
  intros rf.
  assert (H1 : 0 <= offset rf + 5 < 2 ^ 64) by (simpl; lia).
  assert (H2 : -2 ^ 63 <= 5 + -20 < 2 ^ 63) by lia.
  pose proof (start_seek_current_compose rf 5 (-20) H1 H2) as C.
  vm_compute in C. destruct C as [_ [_ [_ [_ F]]]].
  split; [exact H1 |]. split; [exact H2 |]. split; [reflexivity |].
  exact (proj1 (F ltac:(discriminate))).
Defined.
